(** * MaterialXTest/tests_to_html.py: a shallow embedding and its properties

    The script walks a directory of rendered images, pairs every source
    image with its destination-language counterparts, optionally asks the
    image library for difference images, and writes an HTML report.

    The development follows the script top to bottom:
    - [Py]        the Python string primitives the script uses;
    - [PosixPath] the functions of [os.path] it calls;
    - [FS]        a directory tree standing for the file system;
    - the run-time state, the exception monad, [createDiff] and [main];
    - [Html]      a tag scanner used to state well-formedness;
    - the properties: file names and directories of the destinations,
      removal and creation of files, [createDiff] call by call, and
      what a whole run writes and records (a small Hoare logic over
      the monad).

    Paths are POSIX paths, resolved one component at a time as the
    system resolves them; the tree has no links; what the process may
    remove, create and overwrite is part of the surroundings of a run.
    A character of a string is one of the 256 of [ascii], so lengths
    and slices count characters as Python does for text in that range.
    A Python value that may be [None] is an [option]; a local variable
    that may be unbound is an [option] of its value. *)

From Stdlib Require Import String Ascii List ZArith Lia Bool.
From Stdlib Require Import DecimalString.
Import ListNotations.

Open Scope list_scope.
Open Scope string_scope.

(* ================================================================== *)
(** ** Python strings *)
(* ================================================================== *)

Module Py.

(** [len(s)] as a Python integer. *)
Definition len (s : string) : Z := Z.of_nat (String.length s).

(** Index adjustment of a slice bound, as CPython's
    [PySlice_AdjustIndices] does for step 1: a negative bound counts
    from the end, and every bound is clamped to [0 .. len]. *)
Definition adjust_index (i n : Z) : Z :=
  if (i <? 0)%Z then Z.max 0 (i + n) else Z.min i n.

(** [s[start:stop]]. *)
Definition slice (start stop : Z) (s : string) : string :=
  let n := len s in
  let lo := adjust_index start n in
  let hi := adjust_index stop n in
  String.substring (Z.to_nat lo) (Z.to_nat (hi - lo)) s.

(** [s.startswith(p)] and [s.endswith(p)]. *)
Definition startswith (s p : string) : bool := String.prefix p s.

Definition endswith (s p : string) : bool :=
  (String.length p <=? String.length s)%nat
  && String.eqb
       (String.substring (String.length s - String.length p)
                         (String.length p) s) p.

(** Truth value of a string: the empty string is false. *)
Definition truthy (s : string) : bool :=
  match s with EmptyString => false | String _ _ => true end.

(** Truth value of a value that is either [None] or a string. *)
Definition truthy_opt (v : option string) : bool :=
  match v with None => false | Some s => truthy s end.

(** [str(n)] for an integer. *)
Definition str_int (n : Z) : string := NilZero.string_of_int (Z.to_int n).

(** [s.split(c)] for a one-character separator: the pieces between the
    separators, always at least one piece. *)
Fixpoint split_aux (c : ascii) (cur : string) (s : string) : list string :=
  match s with
  | EmptyString => [cur]
  | String a rest =>
      if Ascii.eqb a c then cur :: split_aux c EmptyString rest
      else split_aux c (cur ++ String a EmptyString) rest
  end.

Definition split (c : ascii) (s : string) : list string :=
  split_aux c EmptyString s.

(** [sep.join(pieces)]. *)
Definition join (sep : string) (pieces : list string) : string :=
  String.concat sep pieces.

End Py.

(* ================================================================== *)
(** ** posixpath *)
(* ================================================================== *)

Module PosixPath.

Definition sep : string := "/".

Definition isabs (s : string) : bool := Py.startswith s sep.

(** [os.path.join(a, b)] with two arguments. *)
Definition join (a b : string) : string :=
  if Py.startswith b sep then b
  else if negb (Py.truthy a) || Py.endswith a sep then a ++ b
  else a ++ sep ++ b.

(** The loop of [normpath] over the components: [acc] is [new_comps]
    in reverse order. *)
Fixpoint norm_comps (initial_slashes : nat) (acc : list string)
         (comps : list string) : list string :=
  match comps with
  | [] => List.rev acc
  | comp :: rest =>
      if String.eqb comp "" || String.eqb comp "." then
        norm_comps initial_slashes acc rest
      else if negb (String.eqb comp "..")
              || (Nat.eqb initial_slashes 0
                  && match acc with [] => true | _ => false end)
              || match acc with
                 | top :: _ => String.eqb top ".."
                 | [] => false
                 end
      then norm_comps initial_slashes (comp :: acc) rest
      else match acc with
           | _ :: acc' => norm_comps initial_slashes acc' rest
           | [] => norm_comps initial_slashes acc rest
           end
  end.

Definition initial_slashes (path : string) : nat :=
  if Py.startswith path sep then
    if Py.startswith path "//" && negb (Py.startswith path "///")
    then 2 else 1
  else 0.

Definition normpath (path : string) : string :=
  if negb (Py.truthy path) then "."
  else
    let i := initial_slashes path in
    let comps := norm_comps i [] (Py.split "/" path) in
    let p := Py.join sep comps in
    let p := match i with
             | 0 => p
             | 1 => sep ++ p
             | _ => sep ++ sep ++ p
             end in
    if Py.truthy p then p else ".".

End PosixPath.

(* ================================================================== *)
(** ** The file system *)
(* ================================================================== *)

(** A directory tree without links.  A directory lists its entries in
    the order in which [scandir] reports them.  Every directory can be
    searched and listed; what the process may change is given
    separately, by [perm]. *)

Module FS.

#[warnings="-register-all"]
Inductive node : Type :=
| File (mtime : Z)
| Dir (entries : list (string * node)).

Definition entries_t : Type := list (string * node).

Fixpoint find_entry (name : string) (es : entries_t) : option node :=
  match es with
  | [] => None
  | (k, v) :: rest => if String.eqb k name then Some v else find_entry name rest
  end.

Fixpoint del_entry (name : string) (es : entries_t) : entries_t :=
  match es with
  | [] => []
  | (k, v) :: rest =>
      if String.eqb k name then del_entry name rest
      else (k, v) :: del_entry name rest
  end.

Fixpoint set_entry (name : string) (n : node) (es : entries_t) : entries_t :=
  match es with
  | [] => [(name, n)]
  | (k, v) :: rest =>
      if String.eqb k name then (name, n) :: rest
      else (k, v) :: set_entry name n rest
  end.

(** A location: the names from the root down to a node. *)
Definition loc : Type := list string.

Fixpoint lookup (p : loc) (n : node) : option node :=
  match p with
  | [] => Some n
  | c :: p' =>
      match n with
      | Dir es =>
          match find_entry c es with
          | Some child => lookup p' child
          | None => None
          end
      | File _ => None
      end
  end.

(** Whether something is at a location. *)
Definition present (q : loc) (n : node) : bool :=
  match lookup q n with Some _ => true | None => false end.

(** [unlink]: remove the regular file at a location.  [None] stands
    for the [OSError] the system call reports (nothing there, a
    directory there, or a file on the way). *)
Fixpoint unlink (p : loc) (n : node) : option node :=
  match p, n with
  | c :: p', Dir es =>
      match find_entry c es with
      | Some child =>
          match p' with
          | [] =>
              match child with
              | File _ => Some (Dir (del_entry c es))
              | Dir _ => None
              end
          | _ :: _ =>
              match unlink p' child with
              | Some child' => Some (Dir (set_entry c child' es))
              | None => None
              end
          end
      | None => None
      end
  | _, _ => None
  end.

(** [creat]: make or truncate the regular file at a location, as
    opening it for writing does.  [None] stands for the [OSError]
    (missing parent, a directory there, or a file on the way). *)
Fixpoint creat (p : loc) (mtime : Z) (n : node) : option node :=
  match p, n with
  | c :: p', Dir es =>
      match p' with
      | [] =>
          match find_entry c es with
          | Some (Dir _) => None
          | _ => Some (Dir (set_entry c (File mtime) es))
          end
      | _ :: _ =>
          match find_entry c es with
          | Some child =>
              match creat p' mtime child with
              | Some child' => Some (Dir (set_entry c child' es))
              | None => None
              end
          | None => None
          end
      end
  | _, _ => None
  end.

(** Whether a directory is at a location. *)
Definition is_dir_at (l : loc) (n : node) : bool :=
  match lookup l n with Some (Dir _) => true | _ => false end.

(** Path resolution as the system does it, one component at a time
    from the directory at [here]: every component is taken from a
    directory that exists; an empty component and [.] stay, [..] goes
    to the parent (the root is its own parent), a name goes down.  The
    last component itself may name nothing.  [None] stands for
    [ENOENT] or [ENOTDIR] on the way. *)
Fixpoint resolve (n : node) (here : loc) (comps : list string) : option loc :=
  match comps with
  | [] => Some here
  | c :: rest =>
      if is_dir_at here n then
        if String.eqb c "" || String.eqb c "." then resolve n here rest
        else if String.eqb c ".." then resolve n (List.removelast here) rest
        else resolve n (List.app here [c]) rest
      else None
  end.

(** A file system: the entries of the root directory. *)
Definition t : Type := entries_t.

(** The location a path string names in a process whose working
    directory is [cwd].  The empty path names nothing. *)
Definition locate (cwd : string) (fs : t) (path : string) : option loc :=
  if Py.truthy path then
    if PosixPath.isabs path then resolve (Dir fs) [] (Py.split "/" path)
    else
      match resolve (Dir fs) [] (Py.split "/" cwd) with
      | Some here => resolve (Dir fs) here (Py.split "/" path)
      | None => None
      end
  else None.

Definition stat (cwd : string) (fs : t) (path : string) : option node :=
  match locate cwd fs path with
  | Some p => lookup p (Dir fs)
  | None => None
  end.

(** [os.path.exists], [os.path.isfile], [os.path.isdir]. *)
Definition exists_ (cwd : string) (fs : t) (path : string) : bool :=
  match stat cwd fs path with Some _ => true | None => false end.

Definition isfile (cwd : string) (fs : t) (path : string) : bool :=
  match stat cwd fs path with Some (File _) => true | _ => false end.

Definition isdir (cwd : string) (fs : t) (path : string) : bool :=
  match stat cwd fs path with Some (Dir _) => true | _ => false end.

(** The tree keeps the time of regular files only: the script asks
    for the time of a path after [os.path.isfile] has said yes (lines
    178, 183 and 188). *)
Definition getmtime (cwd : string) (fs : t) (path : string) : option Z :=
  match stat cwd fs path with Some (File m) => Some m | _ => None end.

(** What the process is allowed to change: the entries it may make
    and remove in their directory (the directory must be writable,
    and in a sticky directory the file must be its own), and the
    files it may open for writing.  Both are given by location and do
    not change during a run. *)
Record perm : Type := mkPerm {
  entry_writable : loc -> bool;
  file_writable : loc -> bool
}.

Definition all_allowed : perm := mkPerm (fun _ => true) (fun _ => true).

(** [os.remove] on a path string: [None] stands for the [OSError] it
    raises, when the path does not resolve, when the process may not
    remove the entry, or when [unlink] fails. *)
Definition remove (pm : perm) (cwd : string) (fs : t) (path : string)
  : option t :=
  match locate cwd fs path with
  | Some p =>
      if entry_writable pm p then
        match unlink p (Dir fs) with
        | Some (Dir es) => Some es
        | _ => None
        end
      else None
  | None => None
  end.

(** Opening a file for writing, on a path string: a file that is
    there must be writable, a new one must be an entry the process
    may make. *)
Definition open_w (pm : perm) (cwd : string) (mtime : Z) (fs : t)
           (path : string) : option t :=
  match locate cwd fs path with
  | Some p =>
      if match lookup p (Dir fs) with
         | Some _ => file_writable pm p
         | None => entry_writable pm p
         end
      then
        match creat p mtime (Dir fs) with
        | Some (Dir es) => Some es
        | _ => None
        end
      else None
  | None => None
  end.

(** [os.walk(top)], top down, links not followed, errors ignored:
    one triple (directory, sub-directory names, other names) per
    directory; a sub-directory [d] of [top] is walked as
    [os.path.join(top, d)]. *)
Definition dirnames (es : entries_t) : list string :=
  List.flat_map
    (fun e => match snd e with Dir _ => [fst e] | File _ => [] end) es.

Definition filenames (es : entries_t) : list string :=
  List.flat_map
    (fun e => match snd e with File _ => [fst e] | Dir _ => [] end) es.

Fixpoint walk_node (top : string) (n : node)
  : list (string * list string * list string) :=
  match n with
  | File _ => []
  | Dir es =>
      (top, dirnames es, filenames es)
        :: List.flat_map
             (fun e =>
                match e with
                | (name, (Dir _) as child) =>
                    walk_node (PosixPath.join top name) child
                | (_, File _) => []
                end) es
  end.

Definition walk (cwd : string) (fs : t) (top : string)
  : list (string * list string * list string) :=
  match stat cwd fs top with
  | Some n => walk_node top n
  | None => []
  end.

End FS.

(* ================================================================== *)
(** ** Run-time state and exceptions *)
(* ================================================================== *)

(** The exceptions the script can meet.  All of them are instances of
    Python's [Exception], so [except Exception] catches each. *)
Inductive exn : Type :=
| UnboundLocalError (name : string)
| NameError (name : string)
| TypeError
| OSError
| ValueError
| ImageError.

(** What an [fh.write] call of the report puts out: the kind of cell
    (or plain markup) the statement stands for. *)
Inductive cell : Type :=
| Markup
| ImgSource | ImgDest | ImgDest2 | ImgDiff | ImgDiff2 | ImgDiff3
| CapSource | CapDest | CapDest2 | CapDiff | CapDiff2 | CapDiff3
| Stamp
| CellEnd.

(** How the four image-library calls of [createDiff] (two [open] and
    [convert], [difference], [save]) end. *)
Inductive pil_outcome : Type :=
| PilSaved
| PilOpenFails
| PilDifferenceFails
| PilSaveFails (partial : bool).

(** Ghost record of what happened, in program order. *)
Inductive event : Type :=
| EvCreateDiff (image1Path image2Path : option string) (imageDiffPath : string)
| EvImageFailure.

(** The surroundings of a run: whether the image library was imported,
    the working directory, what the process may change in the tree,
    the time new files are stamped with, the behaviour of the image
    library on given files, and the rendering of a modification time by
    [str(datetime.fromtimestamp(t))], which is [None] for a time that
    [fromtimestamp] refuses. *)
Record Env : Type := mkEnv {
  DIFF_ENABLED : bool;
  getcwd : string;
  perm : FS.perm;
  now : Z;
  pil : FS.t -> string -> string -> string -> pil_outcome;
  str_time : Z -> option string
}.

Record state : Type := mkState {
  root : FS.t;
  html : list (cell * string);
  stdout : list string;
  events : list event
}.

Inductive result (A : Type) : Type :=
| Ok (a : A)
| Raise (e : exn).
Arguments Ok {A} a.
Arguments Raise {A} e.

Definition M (A : Type) : Type := state -> result A * state.

Definition ret {A : Type} (a : A) : M A := fun st => (Ok a, st).

Definition raise {A : Type} (e : exn) : M A := fun st => (Raise e, st).

Definition bind {A B : Type} (m : M A) (k : A -> M B) : M B :=
  fun st =>
    match m st with
    | (Ok a, st') => k a st'
    | (Raise e, st') => (Raise e, st')
    end.

(** [try: body except Exception: handler]. *)
Definition try_except {A : Type} (body handler : M A) : M A :=
  fun st =>
    match body st with
    | (Ok a, st') => (Ok a, st')
    | (Raise _, st') => handler st'
    end.

Declare Scope py_scope.
Delimit Scope py_scope with py.
Notation "x <- m ;; k" := (bind m (fun x => k))
  (at level 61, m at next level, right associativity) : py_scope.
Notation "m ;; k" := (bind m (fun _ => k))
  (at level 61, right associativity) : py_scope.
Open Scope py_scope.

(** Statements. *)
Definition when (b : bool) (m : M unit) : M unit :=
  if b then m else ret tt.

Definition print (s : string) : M unit :=
  fun st => (Ok tt, mkState (root st) (html st) (stdout st ++ [s])%list (events st)).

Definition fh_write (c : cell) (s : string) : M unit :=
  fun st => (Ok tt, mkState (root st) (html st ++ [(c, s)])%list (stdout st) (events st)).

Definition log_event (e : event) : M unit :=
  fun st => (Ok tt, mkState (root st) (html st) (stdout st) (events st ++ [e])%list).

Definition get_root : M FS.t := fun st => (Ok (root st), st).

Definition set_root (r : FS.t) : M unit :=
  fun st => (Ok tt, mkState r (html st) (stdout st) (events st)).

(** Operations on values that are a string or [None]: each raises
    [TypeError] on [None], as the interpreter does. *)
Definition as_str (v : option string) : M string :=
  match v with Some s => ret s | None => raise TypeError end.

(** [left + v] for a string [left]. *)
Definition concat_val (left : string) (v : option string) : M string :=
  s <- as_str v ;; ret (left ++ s).

(** The text the report has accumulated. *)
Definition document (st : state) : string :=
  String.concat "" (List.map snd (html st)).

(* ================================================================== *)
(** ** The [os] calls against the state *)
(* ================================================================== *)

Section OS.

Variable env : Env.

Definition os_path_exists (v : option string) : M bool :=
  p <- as_str v ;;
  r <- get_root ;;
  ret (FS.exists_ (getcwd env) r p).

Definition os_path_isfile (v : option string) : M bool :=
  p <- as_str v ;;
  r <- get_root ;;
  ret (FS.isfile (getcwd env) r p).

Definition os_path_getmtime (v : option string) : M Z :=
  p <- as_str v ;;
  r <- get_root ;;
  match FS.getmtime (getcwd env) r p with
  | Some t => ret t
  | None => raise OSError
  end.

Definition os_remove (v : option string) : M unit :=
  p <- as_str v ;;
  r <- get_root ;;
  match FS.remove (perm env) (getcwd env) r p with
  | Some r' => set_root r'
  | None => raise OSError
  end.

(** [open(path, "w+")]: the file is made or truncated. *)
Definition open_w (path : string) : M unit :=
  r <- get_root ;;
  match FS.open_w (perm env) (getcwd env) (now env) r path with
  | Some r' => set_root r'
  | None => raise OSError
  end.

(** [os.path.join(a, b)] where [a] may be [None]. *)
Definition os_path_join (a : option string) (b : string) : M string :=
  a' <- as_str a ;; ret (PosixPath.join a' b).

(** Lines 28 to 31: load both images, take their difference and save
    it.  Without the image library the name [Image] is not defined. *)
Definition pil_difference (image1Path image2Path imageDiffPath : string)
  : M unit :=
  if negb (DIFF_ENABLED env) then
    log_event EvImageFailure ;; raise (NameError "Image")
  else
    r <- get_root ;;
    match pil env r image1Path image2Path imageDiffPath with
    | PilSaved =>
        match FS.open_w (perm env) (getcwd env) (now env) r imageDiffPath with
        | Some r' => set_root r'
        | None => log_event EvImageFailure ;; raise OSError
        end
    | PilOpenFails => log_event EvImageFailure ;; raise ImageError
    | PilDifferenceFails => log_event EvImageFailure ;; raise ImageError
    | PilSaveFails partial =>
        log_event EvImageFailure ;;
        match (if partial
               then FS.open_w (perm env) (getcwd env) (now env) r
                              imageDiffPath
               else None) with
        | Some r' => set_root r' ;; raise ImageError
        | None => raise ImageError
        end
    end.

(* ================================================================== *)
(** ** [createDiff] (lines 15 to 35) *)
(* ================================================================== *)

Definition createDiff (image1Path image2Path : option string)
           (imageDiffPath : string) : M unit :=
  try_except
    (b <- os_path_exists (Some imageDiffPath) ;;
     when b (os_remove (Some imageDiffPath)) ;;
     b1 <- os_path_exists image1Path ;;
     if negb b1 then
       msg <- concat_val "Image diff input missing: " image1Path ;;
       print msg
     else
       b2 <- os_path_exists image2Path ;;
       if negb b2 then
         msg <- concat_val "Image diff input missing: " image2Path ;;
         print msg
       else
         p1 <- as_str image1Path ;;
         p2 <- as_str image2Path ;;
         pil_difference p1 p2 imageDiffPath)
    (b <- os_path_exists (Some imageDiffPath) ;;
     when b (os_remove (Some imageDiffPath)) ;;
     m1 <- concat_val "Failed to create image diff between: " image1Path ;;
     m2 <- concat_val (m1 ++ ", ") image2Path ;;
     print m2).

End OS.

(* ================================================================== *)
(** ** [main] (lines 37 to 201) *)
(* ================================================================== *)

(** The parsed command line. *)
Record Args : Type := mkArgs {
  inputdir : string;
  inputdir2 : string;
  inputdir3 : string;
  outputfile : string;
  CREATE_DIFF : bool;
  ENABLE_TIMESTAMPS : bool;
  imagewidth : Z;
  imageheight : Z;
  cellpadding : Z;
  tableborder : Z;
  sourcelang : string;
  destlang : string;
  destlang2 : string
}.

(** The defaults of the argument parser. *)
Definition default_args : Args :=
  mkArgs "." "." "." "tests.html" false false 256 256 0 3 "glsl" "osl" "".

Definition nl : string := String (Ascii.ascii_of_nat 10) EmptyString.

Fixpoint zip6 {A B C D E F : Type}
         (a : list A) (b : list B) (c : list C)
         (d : list D) (e : list E) (f : list F)
  : list (A * B * C * D * E * F) :=
  match a, b, c, d, e, f with
  | x1 :: a', x2 :: b', x3 :: c', x4 :: d', x5 :: e', x6 :: f' =>
      (x1, x2, x3, x4, x5, x6) :: zip6 a' b' c' d' e' f'
  | _, _, _, _, _, _ => []
  end.

(** The local variables of [main] that live across iterations of the
    report loop.  [diffPath3] is assigned in one branch only (line 150),
    so it has three states: not bound, bound to [None], bound to a
    string. *)
Record locals : Type := mkLocals {
  curPath : string;
  diffPath3 : option (option string)
}.

(** Reading a local variable that may not be bound. *)
Definition read_local (name : string) (v : option (option string))
  : M (option string) :=
  match v with
  | Some x => ret x
  | None => raise (UnboundLocalError name)
  end.

Section Main.

Variable env : Env.
Variable args : Args.

(** Lines 70 to 72. *)
Definition dir1 : string :=
  if String.eqb (inputdir args) "." then getcwd env else inputdir args.
Definition dir2 : string :=
  if String.eqb (inputdir2 args) "." then getcwd env else inputdir2 args.
Definition dir3 : string :=
  if String.eqb (inputdir3 args) "." then getcwd env else inputdir3 args.

(** Line 74. *)
Definition useThirdLang : bool :=
  Py.truthy (destlang2 args)
  && (negb (String.eqb (inputdir args) (inputdir3 args))
      || negb (String.eqb (sourcelang args) (destlang2 args))).

(** Lines 76 to 79. *)
Definition heading : string :=
  if useThirdLang then
    "<h3>" ++ sourcelang args ++ " (in: " ++ dir1 ++ ") vs "
      ++ destlang args ++ " (in: " ++ dir2 ++ ") vs "
      ++ destlang2 args ++ " (in: " ++ dir3 ++ ")</h3>" ++ nl
  else
    "<h3>" ++ sourcelang args ++ " (in: " ++ dir1 ++ ") vs "
      ++ destlang args ++ " (in: " ++ dir2 ++ ")</h3>" ++ nl.

(** Lines 84 and 85: [args.inputdir2] after the assignment. *)
Definition inputdir2' : string :=
  if negb (Py.truthy (inputdir2 args)) then inputdir args else inputdir2 args.

(** Lines 86 and 87: [args.inputdir3] after the assignment. *)
Definition inputdir3' : string :=
  if useThirdLang && negb (Py.truthy (inputdir3 args))
  then inputdir args else inputdir3 args.

(** Lines 90 to 96: the matching files of a walk, each with the
    directory it was found in. *)
Definition discover (walked : list (string * list string * list string))
  : list (string * string) :=
  List.flat_map
    (fun triple =>
       match triple with
       | (subdir, _, files) =>
           List.map (fun curFile => (curFile, subdir))
             (List.filter
                (fun curFile =>
                   Py.endswith curFile (sourcelang args ++ ".png"))
                files)
       end)
    walked.

Definition sourceFiles (found : list (string * string)) : list string :=
  List.map fst found.
Definition sourcePaths (found : list (string * string)) : list string :=
  List.map snd found.

(** Line 103. *)
Definition postFix : string := sourcelang args ++ ".png".

(** Lines 108 to 113: the test of line 108, and what one iteration
    appends to [destFiles] and [destPaths]. *)
Definition dest1_guard : bool :=
  negb (String.eqb (inputdir args) inputdir2')
  || negb (String.eqb (sourcelang args) (destlang args)).

Definition dest1 (sourceFile sourcePath : string) : string * option string :=
  if dest1_guard
  then (Py.slice 0 (- Py.len postFix) sourceFile ++ destlang args ++ ".png",
        Some (PosixPath.join inputdir2' sourcePath))
  else ("", None).

(** Lines 117 to 122: what one iteration appends to [destFiles2] and
    [destPaths2]. *)
Definition dest2 (sourceFile sourcePath : string) : string * option string :=
  if useThirdLang
  then (Py.slice 0 (- Py.len postFix) sourceFile ++ destlang2 args ++ ".png",
        Some (PosixPath.join inputdir2' sourcePath))
  else ("", None).

Definition destFiles (found : list (string * string)) : list string :=
  List.map (fun sp => fst (dest1 (fst sp) (snd sp))) found.
Definition destPaths (found : list (string * string)) : list (option string) :=
  List.map (fun sp => snd (dest1 (fst sp) (snd sp))) found.
Definition destFiles2 (found : list (string * string)) : list string :=
  List.map (fun sp => fst (dest2 (fst sp) (snd sp))) found.
Definition destPaths2 (found : list (string * string)) : list (option string) :=
  List.map (fun sp => snd (dest2 (fst sp) (snd sp))) found.

(** An image cell (lines 162 to 172 write six of them). *)
Definition img_td (fileUri path : string) : string :=
  "<td class='td_image'><img src='" ++ fileUri ++ path
    ++ "' height='" ++ Py.str_int (imageheight args)
    ++ "' width='" ++ Py.str_int (imagewidth args)
    ++ "' loading='lazy' style='background-color:black;'/></td>" ++ nl.

(** [fh.write(img_td(v))] under [if v:]. *)
Definition write_img (c : cell) (fileUri : string) (v : option string) : M unit :=
  match v with
  | Some p => when (Py.truthy p) (fh_write c (img_td fileUri p))
  | None => ret tt
  end.

(** [str(datetime.datetime.fromtimestamp(t))]. *)
Definition str_fromtimestamp (t : Z) : M string :=
  match str_time env t with
  | Some s => ret s
  | None => raise ValueError
  end.

(** The timestamp lines 178 and 179 (and 183, 184, 188, 189). *)
Definition write_stamp (fullPath : option string) : M unit :=
  b <- (if ENABLE_TIMESTAMPS args then os_path_isfile env fullPath
        else ret false) ;;
  when b (t <- os_path_getmtime env fullPath ;;
          s <- str_fromtimestamp t ;;
          fh_write Stamp ("<br>(" ++ s ++ ")")).

(** A call of [createDiff], recorded. *)
Definition call_createDiff (a b : option string) (out : string) : M unit :=
  log_event (EvCreateDiff a b out) ;;
  createDiff env a b out.

(** The body of the report loop, lines 130 to 197. *)
Definition report_row (lv : locals)
           (r : string * string * string * string * option string * option string)
  : M locals :=
  match r with
  | (sourceFile, destFile, destFile2, sourcePath, destPath, destPath2) =>
    fullSourcePath <-
      (if Py.truthy sourceFile
       then p <- os_path_join (Some sourcePath) sourceFile ;; ret (Some p)
       else ret None) ;;
    fullDestPath <-
      (if Py.truthy destFile
       then p <- os_path_join destPath destFile ;; ret (Some p)
       else ret None) ;;
    fullDestPath2 <-
      (if Py.truthy destFile2
       then p <- os_path_join destPath2 destFile2 ;; ret (Some p)
       else ret None) ;;
    curPath' <-
      (if negb (String.eqb (curPath lv) sourcePath) then
         when (negb (String.eqb (curPath lv) ""))
              (fh_write Markup ("</table>" ++ nl)) ;;
         fh_write Markup ("<p>" ++ PosixPath.normpath sourcePath ++ ":</p>" ++ nl) ;;
         fh_write Markup ("<table>" ++ nl) ;;
         ret sourcePath
       else ret (curPath lv)) ;;
    diffPath <-
      (if Py.truthy sourceFile && Py.truthy destFile
          && DIFF_ENABLED env && CREATE_DIFF args
       then
         fsp <- as_str fullSourcePath ;;
         let diffPath := Py.slice 0 (-8) fsp ++ "_" ++ sourcelang args
                           ++ "_vs_" ++ destlang args ++ "_diff.png" in
         call_createDiff fullSourcePath fullDestPath diffPath ;;
         ret (Some diffPath)
       else ret None) ;;
    diffs <-
      (if useThirdLang && Py.truthy sourceFile && Py.truthy destFile2
          && DIFF_ENABLED env && CREATE_DIFF args
       then
         fsp <- as_str fullSourcePath ;;
         let diffPath2 := Py.slice 0 (-8) fsp ++ "_" ++ sourcelang args
                            ++ "_vs_" ++ destlang2 args ++ "_diff.png" in
         call_createDiff fullSourcePath fullDestPath2 diffPath2 ;;
         fsp' <- as_str fullSourcePath ;;
         let diffPath3 := Py.slice 0 (-8) fsp' ++ "_" ++ destlang args
                            ++ "_vs_" ++ destlang2 args ++ "_diff.png" in
         call_createDiff fullDestPath fullDestPath2 diffPath3 ;;
         ret (Some diffPath2, Some (Some diffPath3))
       else ret (None, diffPath3 lv)) ;;
    let diffPath2 := fst diffs in
    let diffPath3 := snd diffs in
    let fileUri := if PosixPath.isabs (outputfile args)
                   then "file:///" else "" in
    fh_write Markup ("<tr>" ++ nl) ;;
    write_img ImgSource fileUri fullSourcePath ;;
    write_img ImgDest fileUri fullDestPath ;;
    write_img ImgDest2 fileUri fullDestPath2 ;;
    write_img ImgDiff fileUri diffPath ;;
    write_img ImgDiff2 fileUri diffPath2 ;;
    d3 <- read_local "diffPath3" diffPath3 ;;
    write_img ImgDiff3 fileUri d3 ;;
    fh_write Markup ("</tr>" ++ nl) ;;

    fh_write Markup ("<tr>" ++ nl) ;;
    when (Py.truthy_opt fullSourcePath)
         (fh_write CapSource ("<td align='center'>" ++ sourceFile)) ;;
    write_stamp fullSourcePath ;;
    fh_write CellEnd ("</td>" ++ nl) ;;
    when (Py.truthy_opt fullDestPath)
         (fh_write CapDest ("<td align='center'>" ++ destFile)) ;;
    write_stamp fullDestPath ;;
    fh_write CellEnd ("</td>" ++ nl) ;;
    when (Py.truthy_opt fullDestPath2)
         (fh_write CapDest2 ("<td align='center'>" ++ destFile2)) ;;
    write_stamp fullDestPath2 ;;
    fh_write CellEnd ("</td>" ++ nl) ;;
    when (Py.truthy_opt diffPath)
         (fh_write CapDiff ("<td align='center'>Difference " ++ sourcelang args
                              ++ " vs. " ++ destlang args ++ " </td>" ++ nl)) ;;
    when (Py.truthy_opt diffPath2)
         (fh_write CapDiff2 ("<td align='center'>Difference " ++ sourcelang args
                               ++ " vs. " ++ destlang2 args ++ " </td>" ++ nl)) ;;
    d3' <- read_local "diffPath3" diffPath3 ;;
    when (Py.truthy_opt d3')
         (fh_write CapDiff3 ("<td align='center'>Difference " ++ destlang args
                               ++ " vs. " ++ destlang2 args ++ " </td>" ++ nl)) ;;
    fh_write Markup ("</tr>" ++ nl) ;;
    ret (mkLocals curPath' diffPath3)
  end.

(** The report loop, line 128. *)
Fixpoint report_rows (lv : locals)
         (rows : list (string * string * string * string
                       * option string * option string))
  : M locals :=
  match rows with
  | [] => ret lv
  | r :: rest => lv' <- report_row lv r ;; report_rows lv' rest
  end.

(** Lines 56 to 69. *)
Definition write_head : M unit :=
  fh_write Markup ("<html>" ++ nl) ;;
  fh_write Markup ("<style>" ++ nl) ;;
  fh_write Markup "td {" ;;
  fh_write Markup ("    padding: " ++ Py.str_int (cellpadding args) ++ ";") ;;
  fh_write Markup ("    border: " ++ Py.str_int (tableborder args)
                     ++ "px solid black;") ;;
  fh_write Markup "}" ;;
  fh_write Markup "table, tbody, th, .td_image {" ;;
  fh_write Markup "    border-collapse: collapse;" ;;
  fh_write Markup "    padding: 0;" ;;
  fh_write Markup "    margin: 0;" ;;
  fh_write Markup "}" ;;
  fh_write Markup "</style>" ;;
  fh_write Markup ("<body>" ++ nl).

(** The source entries the walk of line 92 finds in a tree. *)
Definition found_in (r : FS.t) : list (string * string) :=
  discover (FS.walk (getcwd env) r (inputdir args)).

(** The rows the report loop of line 128 goes through. *)
Definition rows_of (found : list (string * string))
  : list (string * string * string * string * option string * option string) :=
  zip6 (sourceFiles found) (destFiles found) (destFiles2 found)
       (sourcePaths found) (destPaths found) (destPaths2 found).

(** Lines 57 to 82: style block, heading, and the warning about a
    missing image library. *)
Definition preamble : M unit :=
  write_head ;;
  fh_write Markup heading ;;
  when (negb (DIFF_ENABLED env) && CREATE_DIFF args)
       (print "--diff argument ignored. Diff utility not installed.").

(** Lines 126 to 201: the rows, then the closing tags. *)
Definition report (found : list (string * string)) : M unit :=
  when (match sourceFiles found with [] => false | _ :: _ => true end)
       (report_rows (mkLocals "" None) (rows_of found) ;; ret tt) ;;
  fh_write Markup ("</table>" ++ nl) ;;
  fh_write Markup ("</body>" ++ nl) ;;
  fh_write Markup ("</html>" ++ nl).

Definition main : M unit :=
  open_w env (outputfile args) ;;
  preamble ;;
  r <- get_root ;;
  report (found_in r).

End Main.

(** A run from a given tree: nothing written or printed yet. *)
Definition initial (r : FS.t) : state := mkState r [] [] [].

Definition run (env : Env) (args : Args) (r : FS.t) : result unit * state :=
  main env args (initial r).

(** States that differ from a given one in one field. *)
Definition with_root (r : FS.t) (st : state) : state :=
  mkState r (html st) (stdout st) (events st).

Definition with_line (s : string) (st : state) : state :=
  mkState (root st) (html st) (List.app (stdout st) [s]) (events st).

Definition with_event (e : event) (st : state) : state :=
  mkState (root st) (html st) (stdout st) (List.app (events st) [e]).

(** The tree after lines 17 and 18 (and 33 and 34): the output file is
    removed if something is there; [None] when [os.remove] raises. *)
Definition cleared (pm : FS.perm) (cwd : string) (fs : FS.t) (out : string)
  : option FS.t :=
  if FS.exists_ cwd fs out then FS.remove pm cwd fs out else Some fs.

(** Lines 17 and 18 do not raise: nothing is at the output path, or
    [os.remove] succeeds on what is there. *)
Definition output_removable (env : Env) (fs : FS.t) (out : string) : Prop :=
  FS.exists_ (getcwd env) fs out = true ->
  exists fs1, FS.remove (perm env) (getcwd env) fs out = Some fs1.

(* ================================================================== *)
(** ** Well-formedness of a document *)
(* ================================================================== *)

Module Html.

Inductive tag : Type :=
| Open (name : string)
| Close (name : string).

(** The texts between each [<] and the next [>]. *)
Fixpoint bodies (cur : option string) (s : string) : list string :=
  match s with
  | EmptyString => []
  | String a rest =>
      match cur with
      | None =>
          if Ascii.eqb a "<" then bodies (Some EmptyString) rest
          else bodies None rest
      | Some b =>
          if Ascii.eqb a ">" then b :: bodies None rest
          else bodies (Some (b ++ String a EmptyString)) rest
      end
  end.

(** Elements that take no closing tag. *)
Definition void_elements : list string := ["br"; "img"; "hr"; "meta"; "link"].

Definition classify (body : string) : option tag :=
  if Py.startswith body "/"
  then Some (Close (String.substring 1 (String.length body - 1) body))
  else if Py.endswith body "/" then None
  else
    let name := List.hd EmptyString (Py.split " " body) in
    if List.existsb (String.eqb name) void_elements then None
    else Some (Open name).

Definition tags (doc : string) : list tag :=
  List.flat_map
    (fun b => match classify b with Some t => [t] | None => [] end)
    (bodies None doc).

(** Every closing tag closes the innermost open element, and nothing
    stays open at the end. *)
Fixpoint nested (stack : list string) (ts : list tag) : bool :=
  match ts with
  | [] => match stack with [] => true | _ :: _ => false end
  | Open name :: rest => nested (name :: stack) rest
  | Close name :: rest =>
      match stack with
      | top :: stack' => String.eqb top name && nested stack' rest
      | [] => false
      end
  end.

Definition well_formed (doc : string) : bool := nested [] (tags doc).

End Html.

(* ================================================================== *)
(** ** The statements of the specification, in its own words *)
(* ================================================================== *)

(** "The full source image path with its final [n] characters
    removed". *)
Definition remove_final (n : nat) (s : string) : string :=
  String.substring 0 (String.length s - n) s.

(** "The full source image path with its final 8 characters removed
    and [_<langA>_vs_<langB>_diff.png] appended". *)
Definition final_8_replaced (fullSourcePath langA langB : string) : string :=
  remove_final 8 fullSourcePath
    ++ "_" ++ langA ++ "_vs_" ++ langB ++ "_diff.png".

(** "[<sourceBaseWithoutSuffix>]": the source path without its
    "language+extension suffix" [<sourcelang>.png]. *)
Definition source_base_without_suffix (args : Args) (fullSourcePath : string)
  : string :=
  remove_final (String.length (sourcelang args ++ ".png")) fullSourcePath.

(** "[<sourceBaseWithoutSuffix>_<langA>_vs_<langB>_diff.png]". *)
Definition diff_artifact_name (args : Args)
           (fullSourcePath langA langB : string) : string :=
  source_base_without_suffix args fullSourcePath
    ++ "_" ++ langA ++ "_vs_" ++ langB ++ "_diff.png".

(** The rule for destination 1 as the specification words it: the
    entry is absent exactly when the configured roots [inputdir] and
    [inputdir2] are equal and the two languages are equal. *)
Definition dest1_rule_as_stated (env : Env) (args : Args) (r : FS.t) : Prop :=
  Forall2
    (fun destFile destPath =>
       if String.eqb (inputdir args) (inputdir2 args)
          && String.eqb (sourcelang args) (destlang args)
       then destFile = "" /\ destPath = None
       else destFile <> "" /\ destPath <> None)
    (destFiles args (found_in env args r))
    (destPaths args (found_in env args r)).

(** The rule for a call of [createDiff] with one input missing, as the
    specification words it: afterwards nothing is at the output path
    and exactly one line was printed, naming the input that was
    missing. *)
Definition missing_input_rule_as_stated
           (env : Env) (st : state) (p1 p2 out missing : string) : Prop :=
  (FS.exists_ (getcwd env) (root st) p1 = false
   /\ FS.exists_ (getcwd env) (root st) p2 = true /\ missing = p1)
  \/ (FS.exists_ (getcwd env) (root st) p1 = true
      /\ FS.exists_ (getcwd env) (root st) p2 = false /\ missing = p2) ->
  FS.exists_ (getcwd env)
             (root (snd (createDiff env (Some p1) (Some p2) out st))) out
  = false
  /\ stdout (snd (createDiff env (Some p1) (Some p2) out st))
     = List.app (stdout st) ["Image diff input missing: " ++ missing].

(** The message of line 35. *)
Definition failure_line (p1 p2 : string) : string :=
  "Failed to create image diff between: " ++ p1 ++ ", " ++ p2.

(** Whether the image library was called and failed between two
    states: the record of events grew by one failure. *)
Definition image_failure_between (st st' : state) : Prop :=
  events st' = List.app (events st) [EvImageFailure].

(** The cells of the second destination language. *)
Definition third_language_cell (c : cell) : bool :=
  match c with
  | ImgDest2 | CapDest2 | ImgDiff2 | CapDiff2 | ImgDiff3 | CapDiff3 => true
  | _ => false
  end.

(** What a run may write and record: every cell of the report
    satisfies [okc] and every recorded event satisfies [oke]. *)
Definition inv (okc : cell -> Prop) (oke : event -> Prop) (st : state) : Prop :=
  Forall (fun cs => okc (fst cs)) (html st) /\ Forall oke (events st).

(** A computation keeps [I], whether it returns or raises, and what it
    returns satisfies [Q]. *)
Definition hoare {A : Type} (I : state -> Prop) (m : M A) (Q : A -> Prop)
  : Prop :=
  forall st, I st ->
             I (snd (m st)) /\ (forall a, fst (m st) = Ok a -> Q a).

(** The row of the report loop for one discovered entry. *)
Definition row_of (args : Args) (fd : string * string)
  : string * string * string * string * option string * option string :=
  (fst fd, fst (dest1 args (fst fd) (snd fd)),
   fst (dest2 args (fst fd) (snd fd)), snd fd,
   snd (dest1 args (fst fd) (snd fd)), snd (dest2 args (fst fd) (snd fd))).

(** The tree the walk of line 92 sees: the one the run starts from,
    with the report file made or truncated by line 56. *)
Definition walked_tree (env : Env) (args : Args) (r : FS.t) : FS.t :=
  match FS.open_w (perm env) (getcwd env) (now env) r (outputfile args) with
  | Some r' => r'
  | None => r
  end.

(** A recorded call of [createDiff] writes to the full path of a
    discovered source file with its final 8 characters replaced, for
    one of the three pairs of languages. *)
Definition diff_event_ok (args : Args) (found : list (string * string))
           (e : event) : Prop :=
  match e with
  | EvCreateDiff _ _ out =>
      exists sourceFile sourcePath langA langB,
        In (sourceFile, sourcePath) found
        /\ In (langA, langB)
              [(sourcelang args, destlang args);
               (sourcelang args, destlang2 args);
               (destlang args, destlang2 args)]
        /\ out = final_8_replaced (PosixPath.join sourcePath sourceFile)
                                  langA langB
  | EvImageFailure => True
  end.

(* ================================================================== *)
(** ** Sample surroundings *)
(* ================================================================== *)

(** An image library that is installed and never fails, a working
    directory [/work], a process that may change everything, and
    times printed as numbers. *)
Definition sample_env : Env :=
  mkEnv true "/work" FS.all_allowed 0 (fun _ _ _ _ => PilSaved)
        (fun t => Some (Py.str_int t)).

(** The same with an image library whose [save] fails half way. *)
Definition failing_env : Env :=
  mkEnv true "/work" FS.all_allowed 0 (fun _ _ _ _ => PilSaveFails true)
        (fun t => Some (Py.str_int t)).

(** [/work] holds nothing. *)
Definition empty_tree : FS.t := [("work", FS.Dir [])].

(** [/work] holds one rendered image. *)
Definition one_image_tree : FS.t :=
  [("work", FS.Dir [("foo_glsl.png", FS.File 1)])].

(** [/work/A] holds [foo_glsl.png]. *)
Definition tree_A : FS.t :=
  [("work", FS.Dir [("A", FS.Dir [("foo_glsl.png", FS.File 1)])])].

(** [/abs/A] holds [foo_glsl.png] and a sub-directory with
    [bar_glsl.png]. *)
Definition tree_abs : FS.t :=
  [("work", FS.Dir []);
   ("abs", FS.Dir [("A", FS.Dir [("foo_glsl.png", FS.File 1);
                                 ("sub", FS.Dir [("bar_glsl.png", FS.File 2)])])])].

(** [/work] holds [a.png] and [c.png] but no [b.png]. *)
Definition tree_ac : FS.t :=
  [("work", FS.Dir [("a.png", FS.File 1); ("c.png", FS.File 2)])].

(** [-i A -i2 A], the rest by default. *)
Definition args_A : Args :=
  mkArgs "A" "A" "." "tests.html" false false 256 256 0 3 "glsl" "osl" "".

(** [-i A -i2 "" -dl glsl]: the destination root is given as the empty
    string and both languages are the same. *)
Definition args_empty_i2 : Args :=
  mkArgs "A" "" "." "tests.html" false false 256 256 0 3 "glsl" "glsl" "".

(** [-i /abs/A -i2 /other -i3 /third -dl2 mdl]. *)
Definition args_abs : Args :=
  mkArgs "/abs/A" "/other" "/third" "tests.html" false false 256 256 0 3
         "glsl" "osl" "mdl".

(** [-d -dl2 mdl], the rest by default. *)
Definition args_three_diff : Args :=
  mkArgs "." "." "." "tests.html" true false 256 256 0 3 "glsl" "osl" "mdl".

(* ------------------------------------------------------------------ *)
(** Small facts about [String.append], [String.substring] and the
    Python primitives. *)

Lemma append_nil_r (s : string) : s ++ "" = s.
Proof. induction s as [|a s IH]; simpl; [reflexivity | now rewrite IH]. Qed.

Lemma append_assoc (s t u : string) : (s ++ t) ++ u = s ++ (t ++ u).
Proof. induction s as [|a s IH]; simpl; [reflexivity | now rewrite IH]. Qed.

Lemma length_append (s t : string) :
  String.length (s ++ t) = (String.length s + String.length t)%nat.
Proof. induction s as [|a s IH]; simpl; [reflexivity | now rewrite IH]. Qed.

Lemma substring_all (s : string) : String.substring 0 (String.length s) s = s.
Proof. induction s as [|a s IH]; simpl; [reflexivity | now rewrite IH]. Qed.

Lemma substring_0_append (p q : string) :
  String.substring 0 (String.length p) (p ++ q) = p.
Proof.
  induction p as [|a p IH]; simpl.
  - destruct q; reflexivity.
  - now rewrite IH.
Qed.

Lemma substring_skip_append (p q : string) (n : nat) :
  String.substring (String.length p) n (p ++ q) = String.substring 0 n q.
Proof. induction p as [|a p IH]; simpl; [reflexivity | exact IH]. Qed.

Lemma substring_split (s : string) (n : nat) :
  (n <= String.length s)%nat ->
  String.substring 0 n s ++ String.substring n (String.length s - n) s = s.
Proof.
  revert n; induction s as [|a s IH]; intros n Hn; simpl in *.
  - destruct n; reflexivity.
  - destruct n as [|n]; simpl.
    + now rewrite substring_all.
    + rewrite IH by lia. reflexivity.
Qed.

Lemma endswith_append (p suf : string) : Py.endswith (p ++ suf) suf = true.
Proof.
  unfold Py.endswith. rewrite length_append.
  apply andb_true_intro; split.
  - apply Nat.leb_le; lia.
  - replace (String.length p + String.length suf - String.length suf)%nat
      with (String.length p) by lia.
    rewrite substring_skip_append, substring_all. apply String.eqb_refl.
Qed.

Lemma endswith_inv (s suf : string) :
  Py.endswith s suf = true ->
  s = String.substring 0 (String.length s - String.length suf) s ++ suf.
Proof.
  unfold Py.endswith; intros H.
  apply andb_prop in H; destruct H as [Hle Heq].
  apply Nat.leb_le in Hle. apply String.eqb_eq in Heq.
  pose proof (substring_split s (String.length s - String.length suf)) as E.
  replace (String.length s - (String.length s - String.length suf))%nat
    with (String.length suf) in E by lia.
  rewrite Heq in E. symmetry; apply E; lia.
Qed.

(** A slice [s[:-k]] with [0 < k] keeps the first [len(s) - k]
    characters, or nothing when the string is shorter than [k]. *)
Lemma slice_drop_last (s : string) (k : nat) :
  (0 < k)%nat ->
  Py.slice 0 (- Z.of_nat k) s
  = String.substring 0 (String.length s - k) s.
Proof.
  intros Hk. unfold Py.slice, Py.adjust_index, Py.len.
  destruct (Z.ltb_spec 0 0) as [?|_]; [lia|].
  destruct (Z.ltb_spec (- Z.of_nat k) 0) as [_|?]; [|lia].
  replace (Z.to_nat (Z.min 0 (Z.of_nat (String.length s)))) with 0%nat by lia.
  f_equal. lia.
Qed.

Lemma slice_strip_suffix (p suf : string) :
  (0 < String.length suf)%nat ->
  Py.slice 0 (- Py.len suf) (p ++ suf) = p.
Proof.
  intros H. unfold Py.len. rewrite slice_drop_last by exact H.
  rewrite length_append.
  replace (String.length p + String.length suf - String.length suf)%nat
    with (String.length p) by lia.
  apply substring_0_append.
Qed.

(* ================================================================== *)
(** ** Induction on directory trees *)
(* ================================================================== *)

Section NodeInduction.

Variable P : FS.node -> Prop.
Hypothesis P_File : forall m, P (FS.File m).
Hypothesis P_Dir :
  forall es, Forall (fun e => P (snd e)) es -> P (FS.Dir es).

Fixpoint node_induction (n : FS.node) : P n :=
  match n with
  | FS.File m => P_File m
  | FS.Dir es =>
      P_Dir es
        ((fix each (l : list (string * FS.node))
            : Forall (fun e => P (snd e)) l :=
            match l with
            | [] => Forall_nil _
            | e :: l' => Forall_cons e (node_induction (snd e)) (each l')
            end) es)
  end.

End NodeInduction.

(* ================================================================== *)
(** ** Discovery and the correspondence of file names *)
(* ================================================================== *)

Lemma discover_endswith (args : Args) walked f d :
  In (f, d) (discover args walked) ->
  Py.endswith f (postFix args) = true.
Proof.
  unfold discover, postFix. intros H.
  apply in_flat_map in H. destruct H as [[[subdir ds] files] [_ H]].
  apply in_map_iff in H. destruct H as [g [E H]].
  inversion E; subst. apply filter_In in H. apply H.
Qed.

Lemma discover_dir_walked (args : Args) walked f d :
  In (f, d) (discover args walked) ->
  exists ds files, In (d, ds, files) walked.
Proof.
  unfold discover. intros H.
  apply in_flat_map in H. destruct H as [[[subdir ds] files] [Hw H]].
  apply in_map_iff in H. destruct H as [g [E _]].
  inversion E; subst. eauto.
Qed.

Lemma postFix_nonempty (args : Args) : (0 < String.length (postFix args))%nat.
Proof. unfold postFix. rewrite length_append. simpl. lia. Qed.

Lemma Forall2_map_same {A B C : Type} (R : B -> C -> Prop)
      (f : A -> B) (g : A -> C) (l : list A) :
  Forall (fun a => R (f a) (g a)) l ->
  Forall2 R (List.map f l) (List.map g l).
Proof. induction 1; simpl; constructor; assumption. Qed.

(** C4. Whenever the test of line 108 lets destination 1 be computed,
    every discovered source file name is some stem followed by
    [<sourcelang>.png], and its destination-1 file name is the very same
    stem followed by [<destlang>.png]. *)
Theorem dest1_filename_replaces_suffix (env : Env) (args : Args) (r : FS.t) :
  dest1_guard args = true ->
  Forall2
    (fun sourceFile destFile =>
       exists stem,
         sourceFile = stem ++ sourcelang args ++ ".png"
         /\ destFile = stem ++ destlang args ++ ".png")
    (sourceFiles (found_in env args r))
    (destFiles args (found_in env args r)).
Proof.
  intros Hguard. unfold sourceFiles, destFiles.
  apply Forall2_map_same. apply Forall_forall.
  intros [f d] Hin. simpl.
  apply discover_endswith in Hin.
  pose proof (endswith_inv _ _ Hin) as Hsplit.
  set (stem := String.substring 0 (String.length f - String.length (postFix args)) f)
    in Hsplit.
  exists stem. split.
  - exact Hsplit.
  - unfold dest1. rewrite Hguard. simpl. rewrite Hsplit.
    rewrite slice_strip_suffix by apply postFix_nonempty. reflexivity.
Qed.

Lemma dest1_filename_replaces_suffix_witness :
  dest1_guard args_A = true
  /\ sourceFiles (found_in sample_env args_A tree_A) = ["foo_glsl.png"]
  /\ Forall2
       (fun sourceFile destFile =>
          exists stem,
            sourceFile = stem ++ sourcelang args_A ++ ".png"
            /\ destFile = stem ++ destlang args_A ++ ".png")
       (sourceFiles (found_in sample_env args_A tree_A))
       (destFiles args_A (found_in sample_env args_A tree_A)).
Proof.
  split; [reflexivity | split; [reflexivity |]].
  apply (dest1_filename_replaces_suffix sample_env args_A tree_A).
  reflexivity.
Defined.

(** C5, as stated, fails: with [-i A -i2 "" -dl glsl] the configured
    roots differ, yet lines 84 and 85 replace the empty root by the
    source root and the entry of [foo_glsl.png] is absent. *)
Lemma dest1_rule_as_stated_fails :
  ~ dest1_rule_as_stated sample_env args_empty_i2 tree_A.
Proof.
  unfold dest1_rule_as_stated. vm_compute. intros H.
  inversion H as [| ? ? ? ? [Hfile _] _]; subst.
  apply Hfile. reflexivity.
Qed.

(** C5, amended. With the destination-1 root taken after lines 84 and
    85 (an empty [inputdir2] stands for [inputdir]): when that root is
    the source root and the languages are equal, every row has the empty
    file name and no directory; otherwise every row has a file name
    ending in [<destlang>.png] and a directory. *)
Theorem dest1_absent_iff_same_root_and_language
        (env : Env) (args : Args) (r : FS.t) :
  Forall2
    (fun destFile destPath =>
       if String.eqb (inputdir args) (inputdir2' args)
          && String.eqb (sourcelang args) (destlang args)
       then destFile = "" /\ destPath = None
       else (exists stem, destFile = stem ++ destlang args ++ ".png")
            /\ destFile <> "" /\ destPath <> None)
    (destFiles args (found_in env args r))
    (destPaths args (found_in env args r)).
Proof.
  unfold destFiles, destPaths.
  apply Forall2_map_same. apply Forall_forall.
  intros [f d] _. simpl. unfold dest1, dest1_guard.
  destruct (String.eqb (inputdir args) (inputdir2' args));
    destruct (String.eqb (sourcelang args) (destlang args)); simpl.
  - split; reflexivity.
  - split; [eexists; reflexivity | split; [| discriminate]].
    intros E. apply (f_equal String.length) in E.
    rewrite !length_append in E. simpl in E. lia.
  - split; [eexists; reflexivity | split; [| discriminate]].
    intros E. apply (f_equal String.length) in E.
    rewrite !length_append in E. simpl in E. lia.
  - split; [eexists; reflexivity | split; [| discriminate]].
    intros E. apply (f_equal String.length) in E.
    rewrite !length_append in E. simpl in E. lia.
Qed.

(* ------------------------------------------------------------------ *)
(** Absolute paths stay absolute along a walk. *)

Lemma startswith_slash_append (a x : string) :
  Py.startswith a "/" = true -> Py.startswith (a ++ x) "/" = true.
Proof.
  unfold Py.startswith. destruct a as [|c a]; intros H;
    [discriminate H|].
  cbn -[ascii_dec] in *.
  destruct (ascii_dec "/"%char c); [|discriminate H].
  destruct (a ++ x); reflexivity.
Qed.

Lemma join_absolute_right (a b : string) :
  PosixPath.isabs b = true -> PosixPath.join a b = b.
Proof.
  unfold PosixPath.isabs, PosixPath.join, PosixPath.sep. intros H.
  now rewrite H.
Qed.

Lemma isabs_join (a b : string) :
  PosixPath.isabs a = true -> PosixPath.isabs (PosixPath.join a b) = true.
Proof.
  unfold PosixPath.isabs, PosixPath.join, PosixPath.sep. intros H.
  destruct (Py.startswith b "/") eqn:Hb; [exact Hb|].
  destruct (negb (Py.truthy a) || Py.endswith a "/");
    now apply startswith_slash_append.
Qed.

Lemma walk_node_absolute (n : FS.node) :
  forall top,
    PosixPath.isabs top = true ->
    Forall (fun triple => PosixPath.isabs (fst (fst triple)) = true)
           (FS.walk_node top n).
Proof.
  induction n as [m | es IH] using node_induction; intros top Htop; simpl.
  - constructor.
  - constructor; [exact Htop|].
    apply Forall_flat_map.
    rewrite Forall_forall in IH |- *.
    intros [name child] Hin. specialize (IH _ Hin). simpl in IH.
    destruct child as [m | es']; [constructor|].
    apply IH. now apply isabs_join.
Qed.

Lemma found_in_absolute (env : Env) (args : Args) (r : FS.t) :
  PosixPath.isabs (inputdir args) = true ->
  Forall (fun fd => PosixPath.isabs (snd fd) = true) (found_in env args r).
Proof.
  intros Habs. apply Forall_forall. intros [f d] Hin.
  unfold found_in in Hin.
  apply discover_dir_walked in Hin. destruct Hin as [ds [files Hin]].
  unfold FS.walk in Hin.
  destruct (FS.stat (getcwd env) r (inputdir args)) as [n|]; [|contradiction].
  pose proof (walk_node_absolute n _ Habs) as Hall.
  rewrite Forall_forall in Hall. exact (Hall _ Hin).
Qed.

(** C10. When the source root is an absolute path, every destination-1
    and every destination-2 directory that is computed is the walk
    directory of its source file: the join of lines 110 and 119 drops
    its first argument. *)
Theorem absolute_root_dest_dirs_are_source_dirs
        (env : Env) (args : Args) (r : FS.t) :
  PosixPath.isabs (inputdir args) = true ->
  Forall2 (fun sourcePath destPath =>
             forall d, destPath = Some d -> d = sourcePath)
          (sourcePaths (found_in env args r))
          (destPaths args (found_in env args r))
  /\ Forall2 (fun sourcePath destPath2 =>
                forall d, destPath2 = Some d -> d = sourcePath)
             (sourcePaths (found_in env args r))
             (destPaths2 args (found_in env args r)).
Proof.
  intros Habs. pose proof (found_in_absolute env args r Habs) as Hall.
  unfold sourcePaths, destPaths, destPaths2.
  split; apply Forall2_map_same; rewrite Forall_forall in Hall |- *;
    intros [f d] Hin; specialize (Hall _ Hin); simpl in *.
  - unfold dest1. destruct (dest1_guard args); simpl; intros d' E;
      [|discriminate].
    inversion E. now apply join_absolute_right.
  - unfold dest2. destruct (useThirdLang args); simpl; intros d' E;
      [|discriminate].
    inversion E. now apply join_absolute_right.
Qed.

Lemma absolute_root_dest_dirs_are_source_dirs_witness :
  PosixPath.isabs (inputdir args_abs) = true
  /\ sourcePaths (found_in sample_env args_abs tree_abs)
     = ["/abs/A"; "/abs/A/sub"]
  /\ destPaths args_abs (found_in sample_env args_abs tree_abs)
     = [Some "/abs/A"; Some "/abs/A/sub"]
  /\ destPaths2 args_abs (found_in sample_env args_abs tree_abs)
     = [Some "/abs/A"; Some "/abs/A/sub"]
  /\ (Forall2 (fun sourcePath destPath =>
                 forall d, destPath = Some d -> d = sourcePath)
              (sourcePaths (found_in sample_env args_abs tree_abs))
              (destPaths args_abs (found_in sample_env args_abs tree_abs))
      /\ Forall2 (fun sourcePath destPath2 =>
                    forall d, destPath2 = Some d -> d = sourcePath)
                 (sourcePaths (found_in sample_env args_abs tree_abs))
                 (destPaths2 args_abs (found_in sample_env args_abs tree_abs))).
Proof.
  split; [reflexivity |].
  split; [reflexivity |].
  split; [reflexivity |].
  split; [reflexivity |].
  apply (absolute_root_dest_dirs_are_source_dirs sample_env args_abs tree_abs).
  reflexivity.
Defined.

(* ================================================================== *)
(** ** Removing and creating files *)
(* ================================================================== *)

Module FSFacts.

Import FS.

Lemma find_del_same (c : string) (es : entries_t) :
  find_entry c (del_entry c es) = None.
Proof.
  induction es as [|[k v] es IH]; simpl; [reflexivity|].
  destruct (String.eqb k c) eqn:E; [exact IH|].
  simpl. now rewrite E.
Qed.

Lemma find_del_other (c d : string) (es : entries_t) :
  c <> d -> find_entry d (del_entry c es) = find_entry d es.
Proof.
  intros Hne. induction es as [|[k v] es IH]; simpl; [reflexivity|].
  destruct (String.eqb k c) eqn:E.
  - apply String.eqb_eq in E. subst k.
    apply String.eqb_neq in Hne. now rewrite Hne.
  - simpl. now rewrite IH.
Qed.

Lemma find_set_same (c : string) (n : node) (es : entries_t) :
  find_entry c (set_entry c n es) = Some n.
Proof.
  induction es as [|[k v] es IH]; simpl.
  - now rewrite String.eqb_refl.
  - destruct (String.eqb k c) eqn:E; simpl.
    + now rewrite String.eqb_refl.
    + now rewrite E.
Qed.

Lemma find_set_other (c d : string) (n : node) (es : entries_t) :
  c <> d -> find_entry d (set_entry c n es) = find_entry d es.
Proof.
  intros Hne. pose proof (proj2 (String.eqb_neq c d) Hne) as Hcd.
  induction es as [|[k v] es IH]; simpl.
  - now rewrite Hcd.
  - destruct (String.eqb k c) eqn:E; simpl.
    + apply String.eqb_eq in E. subst k. now rewrite Hcd.
    + now rewrite IH.
Qed.

Lemma lookup_below_file (q : loc) (m : Z) :
  q <> [] -> lookup q (File m) = None.
Proof. destruct q; [congruence | reflexivity]. Qed.

Lemma unlink_gone (p : loc) :
  forall n n', unlink p n = Some n' -> lookup p n' = None.
Proof.
  induction p as [|c p IH]; intros n n' H; [destruct n; discriminate|].
  destruct n as [m|es]; [discriminate|]. simpl in H.
  destruct (find_entry c es) as [child|] eqn:Hc; [|discriminate].
  destruct p as [|c' p'].
  - destruct child; [|discriminate]. inversion H; subst.
    simpl. now rewrite find_del_same.
  - destruct (unlink (c' :: p') child) as [child'|] eqn:Hu; [|discriminate].
    inversion H; subst.
    change (lookup (c :: c' :: p') (Dir (set_entry c child' es)))
      with (match find_entry c (set_entry c child' es) with
            | Some ch => lookup (c' :: p') ch
            | None => None
            end).
    rewrite find_set_same. eapply IH; eassumption.
Qed.

Lemma unlink_elsewhere (p : loc) :
  forall n n' q,
    unlink p n = Some n' -> q <> p -> present q n' = present q n.
Proof.
  unfold present.
  induction p as [|c p IH]; intros n n' q H Hne; [destruct n; discriminate|].
  destruct n as [m|es]; [discriminate|]. simpl in H.
  destruct (find_entry c es) as [child|] eqn:Hc; [|discriminate].
  destruct q as [|d q]; [destruct p, child; try discriminate;
                         try (destruct (unlink _ _); [|discriminate]);
                         inversion H; reflexivity|].
  destruct (string_dec c d) as [->|Hcd].
  - assert (Hq : q <> p) by congruence.
    destruct p as [|c' p'].
    + destruct child as [m|]; [|discriminate]. inversion H; subst.
      simpl. rewrite find_del_same, Hc.
      now rewrite lookup_below_file.
    + destruct (unlink (c' :: p') child) as [child'|] eqn:Hu; [|discriminate].
      inversion H; subst.
      simpl lookup at 1. rewrite find_set_same.
      simpl lookup at 2. rewrite Hc.
      eapply IH; eassumption.
  - destruct p as [|c' p'].
    + destruct child as [m|]; [|discriminate]. inversion H; subst.
      simpl. now rewrite find_del_other.
    + destruct (unlink (c' :: p') child) as [child'|] eqn:Hu; [|discriminate].
      inversion H; subst.
      simpl. now rewrite find_set_other.
Qed.

Lemma unlink_is_dir (p : loc) (es : entries_t) (n' : node) :
  unlink p (Dir es) = Some n' -> exists es', n' = Dir es'.
Proof.
  destruct p as [|c p]; [discriminate|]. simpl.
  destruct (find_entry c es) as [child|]; [|discriminate].
  destruct p.
  - destruct child; [|discriminate]. intros H; inversion H; eauto.
  - destruct (unlink _ child); [|discriminate]. intros H; inversion H; eauto.
Qed.

Lemma unlink_file (p : loc) :
  forall es m, lookup p (Dir es) = Some (File m) ->
               exists n', unlink p (Dir es) = Some n'.
Proof.
  induction p as [|c p IH]; intros es m H; [discriminate|].
  simpl in H. simpl.
  destruct (find_entry c es) as [child|]; [|discriminate].
  destruct p as [|c' p'].
  - simpl in H. inversion H; subst. eauto.
  - destruct child as [m'|es']; [discriminate|].
    destruct (IH _ _ H) as [n' Hn']. rewrite Hn'. eauto.
Qed.

Lemma creat_there (p : loc) (m : Z) :
  forall n n', creat p m n = Some n' -> lookup p n' = Some (File m).
Proof.
  induction p as [|c p IH]; intros n n' H; [destruct n; discriminate|].
  destruct n as [m0|es]; [discriminate|]. simpl in H.
  destruct p as [|c' p'].
  - assert (E : n' = Dir (set_entry c (File m) es)).
    { destruct (find_entry c es) as [[|]|]; congruence. }
    subst. simpl. now rewrite find_set_same.
  - destruct (find_entry c es) as [child|]; [|discriminate].
    destruct (creat (c' :: p') m child) as [child'|] eqn:Hc; [|discriminate].
    inversion H; subst.
    simpl lookup at 1. rewrite find_set_same. eapply IH; eassumption.
Qed.

(** Removing or creating a regular file leaves every directory where
    it is, so paths resolve as before. *)

Lemma unlink_dirs (p : loc) :
  forall n n' l, unlink p n = Some n' -> is_dir_at l n' = is_dir_at l n.
Proof.
  unfold is_dir_at.
  induction p as [|c p IH]; intros n n' l H; [destruct n; discriminate|].
  destruct n as [m|es]; [discriminate|]. simpl in H.
  destruct (find_entry c es) as [child|] eqn:Hc; [|discriminate].
  destruct l as [|d l].
  { destruct p, child; try discriminate;
      try (destruct (unlink _ _); [|discriminate]);
      inversion H; reflexivity. }
  destruct (string_dec c d) as [->|Hcd].
  - destruct p as [|c' p'].
    + destruct child as [m|]; [|discriminate]. inversion H; subst.
      simpl. rewrite find_del_same, Hc. now destruct l.
    + destruct (unlink (c' :: p') child) as [child'|] eqn:Hu; [|discriminate].
      inversion H; subst.
      simpl lookup at 1. rewrite find_set_same.
      simpl lookup at 2. rewrite Hc.
      eapply IH; eassumption.
  - destruct p as [|c' p'].
    + destruct child as [m|]; [|discriminate]. inversion H; subst.
      simpl. now rewrite find_del_other.
    + destruct (unlink (c' :: p') child) as [child'|] eqn:Hu; [|discriminate].
      inversion H; subst.
      simpl. now rewrite find_set_other.
Qed.

Lemma creat_dirs (p : loc) (m : Z) :
  forall n n' l, creat p m n = Some n' -> is_dir_at l n' = is_dir_at l n.
Proof.
  unfold is_dir_at.
  induction p as [|c p IH]; intros n n' l H; [destruct n; discriminate|].
  destruct n as [m0|es]; [discriminate|]. simpl in H.
  destruct l as [|d l].
  { destruct p as [|c' p'].
    - destruct (find_entry c es) as [[|]|]; inversion H; reflexivity.
    - destruct (find_entry c es) as [child|]; [|discriminate].
      destruct (creat (c' :: p') m child); inversion H; reflexivity. }
  destruct (string_dec c d) as [->|Hcd].
  - destruct p as [|c' p'].
    + assert (E : n' = Dir (set_entry d (File m) es)
                  /\ (find_entry d es = None
                      \/ exists m1, find_entry d es = Some (File m1))).
      { destruct (find_entry d es) as [[m1|]|]; inversion H; eauto. }
      destruct E as [-> Hfind].
      simpl lookup at 1. rewrite find_set_same.
      simpl lookup at 2.
      destruct Hfind as [-> | [m1 ->]]; now destruct l.
    + destruct (find_entry d es) as [child|] eqn:Hc; [|discriminate].
      destruct (creat (c' :: p') m child) as [child'|] eqn:Hu; [|discriminate].
      inversion H; subst.
      simpl lookup at 1. rewrite find_set_same.
      simpl lookup at 2. rewrite Hc.
      eapply IH; eassumption.
  - assert (E : exists x, n' = Dir (set_entry c x es)).
    { destruct p as [|c' p'].
      - destruct (find_entry c es) as [[|]|]; inversion H; eauto.
      - destruct (find_entry c es) as [child|]; [|discriminate].
        destruct (creat (c' :: p') m child); inversion H; eauto. }
    destruct E as [x ->]. simpl. now rewrite find_set_other.
Qed.

(** Two trees with their directories at the same places. *)
Definition same_dirs (fs fs' : t) : Prop :=
  forall l, is_dir_at l (Dir fs') = is_dir_at l (Dir fs).

Lemma same_dirs_refl (fs : t) : same_dirs fs fs.
Proof. intros l. reflexivity. Qed.

Lemma same_dirs_trans (fs1 fs2 fs3 : t) :
  same_dirs fs1 fs2 -> same_dirs fs2 fs3 -> same_dirs fs1 fs3.
Proof. intros H12 H23 l. now rewrite H23, H12. Qed.

Lemma resolve_same_dirs (fs fs' : t) :
  same_dirs fs fs' ->
  forall comps here,
    resolve (Dir fs') here comps = resolve (Dir fs) here comps.
Proof.
  intros Hd. induction comps as [|c comps IH]; intros here; [reflexivity|].
  simpl. rewrite Hd. destruct (is_dir_at here (Dir fs)); [|reflexivity].
  destruct (String.eqb c "" || String.eqb c "."); [apply IH|].
  destruct (String.eqb c ".."); apply IH.
Qed.

Lemma locate_same_dirs (cwd : string) (fs fs' : t) (path : string) :
  same_dirs fs fs' -> locate cwd fs' path = locate cwd fs path.
Proof.
  intros Hd. unfold locate.
  destruct (Py.truthy path); [|reflexivity].
  rewrite !(resolve_same_dirs _ _ Hd).
  destruct (PosixPath.isabs path); [reflexivity|].
  destruct (resolve (Dir fs) [] (Py.split "/" cwd)); [|reflexivity].
  apply (resolve_same_dirs _ _ Hd).
Qed.

(** The same facts on path strings. *)

Lemma exists_is_file_or_dir (cwd : string) (fs : t) (path : string) :
  exists_ cwd fs path = isfile cwd fs path || isdir cwd fs path.
Proof.
  unfold exists_, isfile, isdir.
  destruct (stat cwd fs path) as [[|]|]; reflexivity.
Qed.

(** What a successful [os.remove] did. *)
Lemma remove_inv (pm : perm) (cwd : string) (fs fs' : t) (path : string) :
  remove pm cwd fs path = Some fs' ->
  exists p,
    locate cwd fs path = Some p
    /\ entry_writable pm p = true
    /\ unlink p (Dir fs) = Some (Dir fs').
Proof.
  unfold remove.
  destruct (locate cwd fs path) as [p|]; [|discriminate].
  destruct (entry_writable pm p) eqn:Hw; [|discriminate].
  destruct (unlink p (Dir fs)) as [[|es]|] eqn:Hu; try discriminate.
  intros H; inversion H; subst. exists p. repeat split; assumption.
Qed.

(** What a successful [open] for writing did. *)
Lemma open_w_inv (pm : perm) (cwd : string) (m : Z) (fs fs' : t)
      (path : string) :
  open_w pm cwd m fs path = Some fs' ->
  exists p,
    locate cwd fs path = Some p
    /\ (lookup p (Dir fs) = None -> entry_writable pm p = true)
    /\ creat p m (Dir fs) = Some (Dir fs').
Proof.
  unfold open_w.
  destruct (locate cwd fs path) as [p|]; [|discriminate].
  destruct (lookup p (Dir fs)) as [n|] eqn:Hl.
  - destruct (file_writable pm p); [|discriminate].
    destruct (creat p m (Dir fs)) as [[|es]|] eqn:Hc; try discriminate.
    intros H; inversion H; subst. exists p. repeat split; congruence.
  - destruct (entry_writable pm p) eqn:Hw; [|discriminate].
    destruct (creat p m (Dir fs)) as [[|es]|] eqn:Hc; try discriminate.
    intros H; inversion H; subst. exists p. repeat split; congruence.
Qed.

Lemma remove_same_dirs (pm : perm) (cwd : string) (fs fs' : t) (path : string) :
  remove pm cwd fs path = Some fs' -> same_dirs fs fs'.
Proof.
  intros H. destruct (remove_inv _ _ _ _ _ H) as (p & _ & _ & Hu).
  intros l. exact (unlink_dirs _ _ _ l Hu).
Qed.

Lemma open_w_same_dirs (pm : perm) (cwd : string) (m : Z) (fs fs' : t)
      (path : string) :
  open_w pm cwd m fs path = Some fs' -> same_dirs fs fs'.
Proof.
  intros H. destruct (open_w_inv _ _ _ _ _ _ H) as (p & _ & _ & Hc).
  intros l. exact (creat_dirs _ _ _ _ l Hc).
Qed.

Lemma remove_gone (pm : perm) (cwd : string) (fs fs' : t) (path : string) :
  remove pm cwd fs path = Some fs' -> exists_ cwd fs' path = false.
Proof.
  intros H. pose proof (remove_same_dirs _ _ _ _ _ H) as Hd.
  destruct (remove_inv _ _ _ _ _ H) as (p & Hp & _ & Hu).
  unfold exists_, stat. rewrite (locate_same_dirs _ _ _ _ Hd), Hp.
  now rewrite (unlink_gone _ _ _ Hu).
Qed.

Lemma remove_elsewhere (pm : perm) (cwd : string) (fs fs' : t)
      (path q : string) :
  remove pm cwd fs path = Some fs' ->
  locate cwd fs q <> locate cwd fs path ->
  exists_ cwd fs' q = exists_ cwd fs q.
Proof.
  intros H Hne. pose proof (remove_same_dirs _ _ _ _ _ H) as Hd.
  destruct (remove_inv _ _ _ _ _ H) as (p & Hp & _ & Hu).
  unfold exists_, stat. rewrite (locate_same_dirs _ _ _ _ Hd).
  destruct (locate cwd fs q) as [lq|]; [|reflexivity].
  assert (Hq : lq <> p) by congruence.
  exact (unlink_elsewhere _ _ _ _ Hu Hq).
Qed.

Lemma remove_creates_nothing (pm : perm) (cwd : string) (fs fs' : t)
      (path q : string) :
  remove pm cwd fs path = Some fs' ->
  exists_ cwd fs q = false -> exists_ cwd fs' q = false.
Proof.
  intros Hrm Hq.
  assert (Hdec : {locate cwd fs q = locate cwd fs path}
                 + {locate cwd fs q <> locate cwd fs path}).
  { decide equality. apply list_eq_dec, string_dec. }
  destruct Hdec as [E|Hne].
  - pose proof (remove_gone _ _ _ _ _ Hrm) as Hgone.
    pose proof (remove_same_dirs _ _ _ _ _ Hrm) as Hd.
    unfold exists_, stat in *.
    rewrite (locate_same_dirs cwd _ _ path Hd) in Hgone.
    rewrite (locate_same_dirs cwd _ _ q Hd), E. exact Hgone.
  - now rewrite (remove_elsewhere _ _ _ _ _ _ Hrm Hne).
Qed.

Lemma open_w_isfile (pm : perm) (cwd : string) (m : Z) (fs fs' : t)
      (path : string) :
  open_w pm cwd m fs path = Some fs' -> isfile cwd fs' path = true.
Proof.
  intros H. pose proof (open_w_same_dirs _ _ _ _ _ _ H) as Hd.
  destruct (open_w_inv _ _ _ _ _ _ H) as (p & Hp & _ & Hc).
  unfold isfile, stat. rewrite (locate_same_dirs _ _ _ _ Hd), Hp.
  now rewrite (creat_there _ _ _ _ Hc).
Qed.

(** A file the process has just made where nothing was can be
    removed again: making the entry needed the same permission. *)
Lemma remove_after_open_w (pm : perm) (cwd : string) (m : Z) (fs fs2 : t)
      (path : string) :
  open_w pm cwd m fs path = Some fs2 ->
  exists_ cwd fs path = false ->
  exists fs3, remove pm cwd fs2 path = Some fs3.
Proof.
  intros H Habs. pose proof (open_w_same_dirs _ _ _ _ _ _ H) as Hd.
  destruct (open_w_inv _ _ _ _ _ _ H) as (p & Hp & Hw & Hc).
  unfold exists_, stat in Habs. rewrite Hp in Habs.
  destruct (lookup p (Dir fs)) eqn:Hl; [discriminate|].
  unfold remove. rewrite (locate_same_dirs _ _ _ _ Hd), Hp, (Hw eq_refl).
  destruct (unlink_file _ _ _ (creat_there _ _ _ _ Hc)) as [n' Hn'].
  rewrite Hn'. destruct (unlink_is_dir _ _ _ Hn') as [es' ->]. eauto.
Qed.

End FSFacts.

(* ================================================================== *)
(** ** Running [createDiff] *)
(* ================================================================== *)

Lemma list_neq_snoc {A : Type} (l : list A) (x : A) : l <> List.app l [x].
Proof.
  intros E. apply (f_equal (@List.length A)) in E.
  rewrite List.length_app in E. simpl in E. lia.
Qed.

Section CreateDiffFacts.

Variable env : Env.

Lemma run_ret {A B : Type} (a : A) (k : A -> M B) (st : state) :
  bind (ret a) k st = k a st.
Proof. reflexivity. Qed.

Lemma run_exists {B : Type} (p : string) (k : bool -> M B) (st : state) :
  bind (os_path_exists env (Some p)) k st
  = k (FS.exists_ (getcwd env) (root st) p) st.
Proof. reflexivity. Qed.

Lemma run_clear {B : Type} (out : string) (k : M B) (st : state) :
  bind (os_path_exists env (Some out))
       (fun b => bind (when b (os_remove env (Some out))) (fun _ => k)) st
  = match cleared (perm env) (getcwd env) (root st) out with
    | Some fs1 => k (with_root fs1 st)
    | None => (Raise OSError, st)
    end.
Proof.
  rewrite run_exists. unfold cleared.
  destruct st as [fs h so ev]. cbn [root].
  destruct (FS.exists_ (getcwd env) fs out); [|reflexivity].
  unfold when, os_remove, bind, as_str, ret, get_root, set_root, raise.
  cbn [root]. destruct (FS.remove (perm env) (getcwd env) fs out); reflexivity.
Qed.

Lemma cleared_gone (fs fs1 : FS.t) (out : string) :
  cleared (perm env) (getcwd env) fs out = Some fs1 ->
  FS.exists_ (getcwd env) fs1 out = false.
Proof.
  unfold cleared. destruct (FS.exists_ (getcwd env) fs out) eqn:E.
  - apply FSFacts.remove_gone.
  - intros H; inversion H; subst. exact E.
Qed.

Lemma cleared_creates_nothing (fs fs1 : FS.t) (out q : string) :
  cleared (perm env) (getcwd env) fs out = Some fs1 ->
  FS.exists_ (getcwd env) fs q = false ->
  FS.exists_ (getcwd env) fs1 q = false.
Proof.
  unfold cleared. destruct (FS.exists_ (getcwd env) fs out).
  - apply FSFacts.remove_creates_nothing.
  - intros H; inversion H; subst. trivial.
Qed.

Lemma cleared_elsewhere (fs fs1 : FS.t) (out q : string) :
  cleared (perm env) (getcwd env) fs out = Some fs1 ->
  FS.locate (getcwd env) fs q <> FS.locate (getcwd env) fs out ->
  FS.exists_ (getcwd env) fs1 q = FS.exists_ (getcwd env) fs q.
Proof.
  unfold cleared. destruct (FS.exists_ (getcwd env) fs out).
  - apply FSFacts.remove_elsewhere.
  - intros H; inversion H; subst. trivial.
Qed.

Lemma cleared_same_dirs (fs fs1 : FS.t) (out : string) :
  cleared (perm env) (getcwd env) fs out = Some fs1 ->
  FSFacts.same_dirs fs fs1.
Proof.
  unfold cleared. destruct (FS.exists_ (getcwd env) fs out).
  - apply FSFacts.remove_same_dirs.
  - intros H; inversion H; subst. apply FSFacts.same_dirs_refl.
Qed.

Lemma cleared_absent (fs : FS.t) (out : string) :
  FS.exists_ (getcwd env) fs out = false ->
  cleared (perm env) (getcwd env) fs out = Some fs.
Proof. unfold cleared. now intros ->. Qed.

(** Lines 17 and 18 return exactly when the output can be removed. *)
Lemma cleared_removable (fs : FS.t) (out : string) :
  output_removable env fs out <->
  exists fs1, cleared (perm env) (getcwd env) fs out = Some fs1.
Proof.
  unfold output_removable, cleared.
  destruct (FS.exists_ (getcwd env) fs out).
  - split; [intros H; now apply H | intros H _; exact H].
  - split; [eauto | intros _ H; discriminate H].
Qed.

(** The partial file a failed [save] leaves where nothing was can be
    removed by the handler. *)
Lemma cleared_after_open_w (fs fs2 : FS.t) (out : string) :
  FS.open_w (perm env) (getcwd env) (now env) fs out = Some fs2 ->
  FS.exists_ (getcwd env) fs out = false ->
  exists fs3, cleared (perm env) (getcwd env) fs2 out = Some fs3.
Proof.
  intros Hopen Habs. unfold cleared.
  destruct (FS.exists_ (getcwd env) fs2 out); [|eauto].
  exact (FSFacts.remove_after_open_w _ _ _ _ _ _ Hopen Habs).
Qed.

(** C6, amended. A call with exactly one input missing, whose output
    path can be removed if something is there (line 18 does not
    raise) and is not the place of the first input when that one
    exists: the call returns, nothing is at the output path
    afterwards, and exactly one line is printed, naming the missing
    input. *)
Theorem createDiff_one_input_missing
        (st : state) (p1 p2 out missing : string) :
  (FS.exists_ (getcwd env) (root st) p1 = false
   /\ FS.exists_ (getcwd env) (root st) p2 = true /\ missing = p1)
  \/ (FS.exists_ (getcwd env) (root st) p1 = true
      /\ FS.exists_ (getcwd env) (root st) p2 = false /\ missing = p2) ->
  output_removable env (root st) out ->
  (FS.exists_ (getcwd env) (root st) p1 = true ->
   FS.locate (getcwd env) (root st) p1 <> FS.locate (getcwd env) (root st) out) ->
  exists fs',
    createDiff env (Some p1) (Some p2) out st
    = (Ok tt, mkState fs' (html st)
                (List.app (stdout st) ["Image diff input missing: " ++ missing])
                (events st))
    /\ FS.exists_ (getcwd env) fs' out = false.
Proof.
  intros Hone Hrm Halias.
  destruct (proj1 (cleared_removable _ _) Hrm) as [fs1 Hc].
  exists fs1. split; [|exact (cleared_gone _ _ _ Hc)].
  unfold createDiff, try_except.
  rewrite run_clear, Hc, run_exists. cbn [root with_root].
  destruct Hone as [(H1 & H2 & ->) | (H1 & H2 & ->)].
  - rewrite (cleared_creates_nothing _ _ _ _ Hc H1). reflexivity.
  - rewrite (cleared_elsewhere _ _ _ _ Hc (Halias H1)), H1.
    cbn [negb]. rewrite run_exists. cbn [root with_root].
    rewrite (cleared_creates_nothing _ _ _ _ Hc H2). reflexivity.
Qed.

(** The handler (lines 33 to 35) from a state in which the output
    path holds nothing, or something that [os.remove] removes. *)
Lemma run_handler (st : state) (p1 p2 out : string) (fs1 : FS.t) :
  cleared (perm env) (getcwd env) (root st) out = Some fs1 ->
  (b <- os_path_exists env (Some out) ;;
   when b (os_remove env (Some out)) ;;
   m1 <- concat_val "Failed to create image diff between: " (Some p1) ;;
   m2 <- concat_val (m1 ++ ", ") (Some p2) ;;
   print m2) st
  = (Ok tt, with_line (failure_line p1 p2) (with_root fs1 st)).
Proof.
  intros Hc. rewrite run_clear, Hc.
  cbv beta iota delta [concat_val as_str bind ret print].
  unfold with_line, failure_line. cbn [root html stdout events with_root].
  now rewrite !append_assoc.
Qed.

(** How lines 28 to 31 end: the difference is saved, or the library
    fails and leaves nothing behind, or it fails and leaves a file at
    the output path. *)
Lemma pil_difference_cases (st : state) (p1 p2 out : string) :
  (exists fs2, pil_difference env p1 p2 out st = (Ok tt, with_root fs2 st))
  \/ (exists e,
        pil_difference env p1 p2 out st
        = (Raise e, with_event EvImageFailure st))
  \/ (exists e fs2,
        FS.open_w (perm env) (getcwd env) (now env) (root st) out = Some fs2
        /\ pil_difference env p1 p2 out st
           = (Raise e, with_root fs2 (with_event EvImageFailure st))).
Proof.
  unfold pil_difference.
  destruct (DIFF_ENABLED env); cbn [negb];
    [|right; left; eexists; reflexivity].
  cbv beta iota delta [bind get_root].
  destruct (pil env (root st) p1 p2 out) as [ | | | partial].
  - destruct (FS.open_w (perm env) (getcwd env) (now env) (root st) out)
      as [fs2|].
    + left. eexists; reflexivity.
    + right; left. eexists; reflexivity.
  - right; left. eexists; reflexivity.
  - right; left. eexists; reflexivity.
  - destruct partial.
    + cbn [log_event root].
      destruct (FS.open_w (perm env) (getcwd env) (now env) (root st) out)
        as [fs2|] eqn:E.
      * right; right. exists ImageError, fs2. split; reflexivity.
      * right; left. eexists; reflexivity.
    + right; left. eexists; reflexivity.
Qed.

(** Every call with two path strings either leaves the record of
    events alone, or records one failure of the image library, returns
    normally, prints the message of line 35 and leaves nothing at the
    output path. *)
Lemma createDiff_cases (st : state) (p1 p2 out : string) :
  events (snd (createDiff env (Some p1) (Some p2) out st)) = events st
  \/ exists fs',
       createDiff env (Some p1) (Some p2) out st
       = (Ok tt, mkState fs' (html st)
                   (List.app (stdout st) [failure_line p1 p2])
                   (List.app (events st) [EvImageFailure]))
       /\ FS.exists_ (getcwd env) fs' out = false.
Proof.
  unfold createDiff, try_except.
  rewrite run_clear.
  destruct (cleared (perm env) (getcwd env) (root st) out) as [fs1|] eqn:Hc.
  2:{ left. rewrite run_clear, Hc. reflexivity. }
  pose proof (cleared_gone _ _ _ Hc) as Hgone.
  rewrite run_exists. cbn [root with_root].
  destruct (FS.exists_ (getcwd env) fs1 p1); cbn [negb]; [|left; reflexivity].
  rewrite run_exists. cbn [root with_root].
  destruct (FS.exists_ (getcwd env) fs1 p2); cbn [negb]; [|left; reflexivity].
  cbn [as_str]. rewrite !run_ret.
  destruct (pil_difference_cases (with_root fs1 st) p1 p2 out)
    as [[fs2 H] | [[e H] | (e & fs2 & Hopen & H)]]; rewrite H.
  - left. reflexivity.
  - right. exists fs1. split; [|exact Hgone].
    rewrite (run_handler _ p1 p2 out fs1); [reflexivity|].
    now apply cleared_absent.
  - cbn [root with_root] in Hopen.
    destruct (cleared_after_open_w _ _ _ Hopen Hgone) as [fs3 Hc3].
    right. exists fs3. split; [|exact (cleared_gone _ _ _ Hc3)].
    rewrite (run_handler _ p1 p2 out fs3); [reflexivity|exact Hc3].
Qed.

(** C7. A call with both inputs present during which loading,
    computing or saving the difference fails returns normally, leaves
    nothing at the output path, and prints one message that names both
    inputs. *)
Theorem createDiff_failure_is_contained
        (st : state) (p1 p2 out : string) :
  FS.exists_ (getcwd env) (root st) p1 = true ->
  FS.exists_ (getcwd env) (root st) p2 = true ->
  image_failure_between st (snd (createDiff env (Some p1) (Some p2) out st)) ->
  exists fs',
    createDiff env (Some p1) (Some p2) out st
    = (Ok tt, mkState fs' (html st)
                (List.app (stdout st) [failure_line p1 p2])
                (List.app (events st) [EvImageFailure]))
    /\ FS.exists_ (getcwd env) fs' out = false.
Proof.
  intros _ _ Hfail.
  destruct (createDiff_cases st p1 p2 out) as [Hsame | Hdone]; [|exact Hdone].
  unfold image_failure_between in Hfail. rewrite Hsame in Hfail.
  now apply list_neq_snoc in Hfail.
Qed.

End CreateDiffFacts.

(** C6, as stated, fails: [a.png] is there, [b.png] is not, and the
    output path is [a.png] itself.  Line 18 removes [a.png], and the
    line printed names [a.png], not the input that was missing. *)
Lemma missing_input_rule_as_stated_fails :
  ~ missing_input_rule_as_stated
      sample_env (initial tree_ac) "a.png" "b.png" "a.png" "b.png".
Proof.
  unfold missing_input_rule_as_stated. intros H.
  destruct H as [_ H]; [right; repeat split; reflexivity|].
  vm_compute in H. discriminate H.
Qed.

Lemma createDiff_one_input_missing_witness :
  FS.exists_ "/work" tree_ac "c.png" = true
  /\ exists fs',
      createDiff sample_env (Some "a.png") (Some "b.png") "c.png"
                 (initial tree_ac)
      = (Ok tt, mkState fs' [] ["Image diff input missing: b.png"] [])
      /\ FS.exists_ "/work" fs' "c.png" = false.
Proof.
  split; [reflexivity|].
  apply (createDiff_one_input_missing
           sample_env (initial tree_ac) "a.png" "b.png" "c.png" "b.png").
  - right. repeat split; reflexivity.
  - intros _. eexists. vm_compute. reflexivity.
  - intros _. vm_compute. discriminate.
Defined.

Lemma createDiff_failure_is_contained_witness :
  exists fs',
    createDiff failing_env (Some "a.png") (Some "c.png") "d.png"
               (initial tree_ac)
    = (Ok tt,
       mkState fs' []
               ["Failed to create image diff between: a.png, c.png"]
               [EvImageFailure])
    /\ FS.exists_ "/work" fs' "d.png" = false.
Proof.
  apply (createDiff_failure_is_contained
           failing_env (initial tree_ac) "a.png" "c.png" "d.png").
  - reflexivity.
  - reflexivity.
  - vm_compute. reflexivity.
Defined.

(** C3. In the scenario [-i A -i2 A] with [A/foo_glsl.png], run from
    the parent of [A]: the walk reports the file in directory ["A"],
    the destination file name is [foo_osl.png] and the heading is as
    specified, but line 110 joins the root [A] with the walk directory
    [A], so the destination directory is [A/A]. *)
Theorem scenario_A_resolution :
  sourceFiles (found_in sample_env args_A tree_A) = ["foo_glsl.png"]
  /\ sourcePaths (found_in sample_env args_A tree_A) = ["A"]
  /\ destFiles args_A (found_in sample_env args_A tree_A) = ["foo_osl.png"]
  /\ destPaths args_A (found_in sample_env args_A tree_A) = [Some "A/A"]
  /\ heading sample_env args_A = "<h3>glsl (in: A) vs osl (in: A)</h3>" ++ nl.
Proof. repeat split; reflexivity. Qed.

(** C1. With the default arguments and one rendered image in the
    working directory the run does not return: line 171 reads
    [diffPath3], which only line 150 binds. *)
Theorem default_run_with_one_image_raises :
  sourceFiles (found_in sample_env default_args one_image_tree) = ["foo_glsl.png"]
  /\ fst (run sample_env default_args one_image_tree)
     = Raise (UnboundLocalError "diffPath3").
Proof. split; vm_compute; reflexivity. Qed.

(** C9. With the default arguments and no image the run returns, and
    the document it wrote closes a table it never opened (line 199):
    the closing tags do not match the opening ones. *)
Theorem empty_report_not_well_formed :
  found_in sample_env default_args empty_tree = []
  /\ fst (run sample_env default_args empty_tree) = Ok tt
  /\ Html.tags (document (snd (run sample_env default_args empty_tree)))
     = [Html.Open "html"; Html.Open "style"; Html.Close "style";
        Html.Open "body"; Html.Open "h3"; Html.Close "h3";
        Html.Close "table"; Html.Close "body"; Html.Close "html"]
  /\ Html.well_formed (document (snd (run sample_env default_args empty_tree)))
     = false.
Proof. repeat split; vm_compute; reflexivity. Qed.

(* ================================================================== *)
(** ** What a run writes and records *)
(* ================================================================== *)

Section Hoare.

Variable okc : cell -> Prop.
Variable oke : event -> Prop.
Hypothesis oke_failure : oke EvImageFailure.


Lemma hoare_ret {A : Type} (a : A) (Q : A -> Prop) :
  Q a -> hoare (inv okc oke) (ret a) Q.
Proof. intros HQ st HI. split; [exact HI|]. intros b E; inversion E; now subst. Qed.

Lemma hoare_raise {A : Type} (e : exn) (Q : A -> Prop) :
  hoare (inv okc oke) (raise e) Q.
Proof. intros st HI. split; [exact HI|]. intros b E; discriminate E. Qed.

Lemma hoare_bind {A B : Type} (m : M A) (k : A -> M B)
      (Q : A -> Prop) (Q' : B -> Prop) :
  hoare (inv okc oke) m Q -> (forall a, Q a -> hoare (inv okc oke) (k a) Q') -> hoare (inv okc oke) (bind m k) Q'.
Proof.
  intros Hm Hk st HI. unfold bind.
  destruct (Hm st HI) as [HI' HQ].
  destruct (m st) as [[a|e] st']; simpl in *.
  - exact (Hk a (HQ a eq_refl) st' HI').
  - split; [exact HI'|]. intros b E; discriminate E.
Qed.

(** Sequencing when the first result is not used. *)
Lemma hoare_seq {A B : Type} (m : M A) (k : M B) (Q' : B -> Prop) :
  hoare (inv okc oke) m (fun _ => True) ->
  hoare (inv okc oke) k Q' ->
  hoare (inv okc oke) (bind m (fun _ => k)) Q'.
Proof. intros Hm Hk. apply (hoare_bind _ _ (fun _ => True)); auto. Qed.

Lemma hoare_weaken {A : Type} (m : M A) (Q Q' : A -> Prop) :
  hoare (inv okc oke) m Q -> (forall a, Q a -> Q' a) -> hoare (inv okc oke) m Q'.
Proof.
  intros Hm HQ st HI. destruct (Hm st HI) as [HI' H]. split; [exact HI'|].
  intros a E. auto.
Qed.

(** A step that returns [a] and leaves the state alone. *)
Lemma hoare_bind_pure {A B : Type} (m : M A) (a : A) (k : A -> M B)
      (Q : B -> Prop) :
  (forall st, m st = (Ok a, st)) -> hoare (inv okc oke) (k a) Q -> hoare (inv okc oke) (bind m k) Q.
Proof.
  intros Hm Hk st HI. unfold bind. rewrite Hm. exact (Hk st HI).
Qed.

(** A step that raises and leaves the state alone. *)
Lemma hoare_bind_raises {A B : Type} (m : M A) (e : exn) (k : A -> M B)
      (Q : B -> Prop) :
  (forall st, m st = (Raise e, st)) -> hoare (inv okc oke) (bind m k) Q.
Proof.
  intros Hm st HI. unfold bind. rewrite Hm. split; [exact HI|].
  intros b E; discriminate E.
Qed.

(** A step that leaves the state alone. *)
Lemma hoare_silent {A : Type} (m : M A) :
  (forall st, snd (m st) = st) -> hoare (inv okc oke) m (fun _ => True).
Proof. intros Hm st HI. rewrite Hm. split; [exact HI | trivial]. Qed.

Lemma hoare_when (b : bool) (m : M unit) :
  (b = true -> hoare (inv okc oke) m (fun _ => True)) -> hoare (inv okc oke) (when b m) (fun _ => True).
Proof.
  intros Hm. destruct b; simpl; [now apply Hm | now apply hoare_ret].
Qed.

Lemma hoare_try {A : Type} (body handler : M A) (Q : A -> Prop) :
  hoare (inv okc oke) body Q -> hoare (inv okc oke) handler Q -> hoare (inv okc oke) (try_except body handler) Q.
Proof.
  intros Hb Hh st HI. unfold try_except.
  destruct (Hb st HI) as [HI' HQ].
  destruct (body st) as [[a|e] st']; simpl in *.
  - split; [exact HI'|]. intros b E. inversion E; subst. now apply HQ.
  - exact (Hh st' HI').
Qed.

Lemma hoare_fh_write (c : cell) (s : string) :
  okc c -> hoare (inv okc oke) (fh_write c s) (fun _ => True).
Proof.
  intros Hc st [Hh He]. split; [|trivial]. split; simpl; [|exact He].
  apply Forall_app. split; [exact Hh|]. constructor; [exact Hc | constructor].
Qed.

Lemma hoare_log_event (e : event) :
  oke e -> hoare (inv okc oke) (log_event e) (fun _ => True).
Proof.
  intros Hev st [Hh He]. split; [|trivial]. split; simpl; [exact Hh|].
  apply Forall_app. split; [exact He|]. constructor; [exact Hev | constructor].
Qed.

Lemma hoare_print (s : string) : hoare (inv okc oke) (print s) (fun _ => True).
Proof. intros st HI. split; [exact HI | trivial]. Qed.

Lemma hoare_set_root (r : FS.t) : hoare (inv okc oke) (set_root r) (fun _ => True).
Proof. intros st HI. split; [exact HI | trivial]. Qed.

Lemma hoare_as_str (v : option string) : hoare (inv okc oke) (as_str v) (fun _ => True).
Proof. apply hoare_silent. intros st. destruct v; reflexivity. Qed.

Lemma hoare_concat_val (l : string) (v : option string) :
  hoare (inv okc oke) (concat_val l v) (fun _ => True).
Proof. apply hoare_silent. intros st. destruct v; reflexivity. Qed.

Section WithEnv.

Variable env : Env.
Variable args : Args.

Lemma hoare_exists (v : option string) :
  hoare (inv okc oke) (os_path_exists env v) (fun _ => True).
Proof. apply hoare_silent. intros st. destruct v; reflexivity. Qed.

Lemma hoare_isfile (v : option string) :
  hoare (inv okc oke) (os_path_isfile env v) (fun _ => True).
Proof. apply hoare_silent. intros st. destruct v; reflexivity. Qed.

Lemma hoare_getmtime (v : option string) :
  hoare (inv okc oke) (os_path_getmtime env v) (fun _ => True).
Proof.
  apply hoare_silent. intros st. destruct v as [p|]; [|reflexivity].
  unfold os_path_getmtime, bind, as_str, ret, get_root.
  destruct (FS.getmtime (getcwd env) (root st) p); reflexivity.
Qed.

Lemma hoare_remove (v : option string) :
  hoare (inv okc oke) (os_remove env v) (fun _ => True).
Proof.
  destruct v as [p|]; [|apply hoare_bind_raises with (e := TypeError); reflexivity].
  intros st HI. unfold os_remove, bind, as_str, ret, get_root.
  destruct (FS.remove (perm env) (getcwd env) (root st) p);
    (split; [exact HI | trivial]).
Qed.

Lemma hoare_open_w (path : string) :
  hoare (inv okc oke) (open_w env path) (fun _ => True).
Proof.
  intros st HI. unfold open_w, bind, get_root.
  destruct (FS.open_w (perm env) (getcwd env) (now env) (root st) path);
    (split; [exact HI | trivial]).
Qed.

Lemma hoare_pil_difference (p1 p2 out : string) :
  hoare (inv okc oke) (pil_difference env p1 p2 out) (fun _ => True).
Proof.
  intros st HI.
  assert (HI' : inv okc oke (with_event EvImageFailure st)).
  { destruct HI as [Hh He]. split; [exact Hh|]. simpl.
    apply Forall_app. split; [exact He|]. now constructor. }
  destruct (pil_difference_cases env st p1 p2 out)
    as [[fs2 H] | [[e H] | (e & fs2 & _ & H)]]; rewrite H;
    (split; [assumption | trivial]).
Qed.

Lemma hoare_createDiff (a b : option string) (out : string) :
  hoare (inv okc oke) (createDiff env a b out) (fun _ => True).
Proof.
  unfold createDiff. apply hoare_try.
  - eapply hoare_bind; [apply hoare_exists | intros b0 _].
    eapply hoare_bind; [apply hoare_when; intros _; apply hoare_remove | intros _ _].
    eapply hoare_bind; [apply hoare_exists | intros b1 _].
    destruct (negb b1).
    + eapply hoare_bind; [apply hoare_concat_val | intros; apply hoare_print].
    + eapply hoare_bind; [apply hoare_exists | intros b2 _].
      destruct (negb b2).
      * eapply hoare_bind; [apply hoare_concat_val | intros; apply hoare_print].
      * eapply hoare_bind; [apply hoare_as_str | intros p1 _].
        eapply hoare_bind; [apply hoare_as_str | intros p2 _].
        apply hoare_pil_difference.
  - eapply hoare_bind; [apply hoare_exists | intros b0 _].
    eapply hoare_bind; [apply hoare_when; intros _; apply hoare_remove | intros _ _].
    eapply hoare_bind; [apply hoare_concat_val | intros m1 _].
    eapply hoare_bind; [apply hoare_concat_val | intros m2 _].
    apply hoare_print.
Qed.

Lemma hoare_os_path_join (a : option string) (b : string) :
  hoare (inv okc oke) (os_path_join a b) (fun _ => True).
Proof. apply hoare_silent. intros st. destruct a; reflexivity. Qed.

Lemma hoare_read_local (name : string) (v : option (option string)) :
  hoare (inv okc oke) (read_local name v) (fun _ => True).
Proof. apply hoare_silent. intros st. destruct v; reflexivity. Qed.

Lemma hoare_write_img (c : cell) (fileUri : string) (v : option string) :
  (Py.truthy_opt v = true -> okc c) ->
  hoare (inv okc oke) (write_img args c fileUri v) (fun _ => True).
Proof.
  intros Hc. destruct v as [p|]; simpl; [|now apply hoare_ret].
  apply hoare_when. intros Hp. apply hoare_fh_write. now apply Hc.
Qed.

Lemma hoare_write_stamp (v : option string) :
  okc Stamp -> hoare (inv okc oke) (write_stamp env args v) (fun _ => True).
Proof.
  intros Hc. unfold write_stamp.
  eapply hoare_bind with (Q := fun _ => True).
  - destruct (ENABLE_TIMESTAMPS args); [apply hoare_isfile | now apply hoare_ret].
  - intros b _. apply hoare_when. intros _.
    eapply hoare_bind; [apply hoare_getmtime | intros t _].
    eapply hoare_bind with (Q := fun _ => True).
    + apply hoare_silent. intros st. unfold str_fromtimestamp.
      destruct (str_time env t); reflexivity.
    + intros s _. now apply hoare_fh_write.
Qed.

Lemma hoare_call_createDiff (a b : option string) (out : string) :
  oke (EvCreateDiff a b out) ->
  hoare (inv okc oke) (call_createDiff env a b out) (fun _ => True).
Proof.
  intros He. unfold call_createDiff.
  eapply hoare_bind; [now apply hoare_log_event | intros _ _].
  apply hoare_createDiff.
Qed.

Lemma hoare_write_head :
  okc Markup -> hoare (inv okc oke) (write_head args) (fun _ => True).
Proof.
  intros Hm. unfold write_head.
  repeat (apply hoare_seq; [apply hoare_fh_write; exact Hm|]).
  apply hoare_fh_write; exact Hm.
Qed.

Lemma hoare_preamble :
  okc Markup -> hoare (inv okc oke) (preamble env args) (fun _ => True).
Proof.
  intros Hm. unfold preamble.
  apply hoare_seq; [now apply hoare_write_head|].
  apply hoare_seq; [apply hoare_fh_write; exact Hm|].
  apply hoare_when. intros _. apply hoare_print.
Qed.

Lemma hoare_report (found : list (string * string)) :
  okc Markup ->
  hoare (inv okc oke)
        (report_rows env args (mkLocals "" None) (rows_of args found))
        (fun _ => True) ->
  hoare (inv okc oke) (report env args found) (fun _ => True).
Proof.
  intros Hm Hrows. unfold report.
  apply hoare_seq.
  - apply hoare_when. intros _.
    apply (hoare_bind _ _ (fun _ => True)); [exact Hrows|].
    intros lv _. apply hoare_ret. exact Logic.I.
  - repeat (apply hoare_seq; [apply hoare_fh_write; exact Hm|]).
    apply hoare_fh_write; exact Hm.
Qed.

End WithEnv.

End Hoare.

Lemma rows_of_map (args : Args) (found : list (string * string)) :
  rows_of args found = List.map (row_of args) found.
Proof.
  unfold rows_of, sourceFiles, destFiles, destFiles2, sourcePaths,
    destPaths, destPaths2.
  induction found as [|fd found IH]; [reflexivity|].
  simpl. now rewrite IH.
Qed.

Lemma run_bind_ok {A B : Type} (m : M A) (k : A -> M B)
      (st : state) (a : A) (st' : state) :
  m st = (Ok a, st') -> bind m k st = k a st'.
Proof. intros E. unfold bind. now rewrite E. Qed.

(** Statements that return and leave the tree alone. *)
Lemma steady_fh_write (c : cell) (s : string) (st : state) :
  exists st', fh_write c s st = (Ok tt, st') /\ root st' = root st.
Proof. eexists; split; reflexivity. Qed.

Lemma steady_seq (m k : M unit) :
  (forall st, exists st', m st = (Ok tt, st') /\ root st' = root st) ->
  (forall st, exists st', k st = (Ok tt, st') /\ root st' = root st) ->
  forall st, exists st',
      bind m (fun _ => k) st = (Ok tt, st') /\ root st' = root st.
Proof.
  intros Hm Hk st. destruct (Hm st) as (st1 & E1 & R1).
  destruct (Hk st1) as (st2 & E2 & R2).
  exists st2. split; [|congruence].
  now rewrite (run_bind_ok _ _ _ _ _ E1).
Qed.

Lemma write_head_returns (args : Args) (st : state) :
  exists st', write_head args st = (Ok tt, st') /\ root st' = root st.
Proof.
  revert st. unfold write_head.
  repeat (apply steady_seq; [apply steady_fh_write|]).
  apply steady_fh_write.
Qed.

Lemma preamble_returns (env : Env) (args : Args) (st : state) :
  exists st', preamble env args st = (Ok tt, st') /\ root st' = root st.
Proof.
  revert st. unfold preamble.
  apply steady_seq; [apply write_head_returns|].
  apply steady_seq; [apply steady_fh_write|].
  intros st.
  destruct (negb (DIFF_ENABLED env) && CREATE_DIFF args);
    eexists; split; reflexivity.
Qed.

Lemma run_main (env : Env) (args : Args) (r : FS.t) :
  run env args r
  = match FS.open_w (perm env) (getcwd env) (now env) r (outputfile args) with
    | Some r' =>
        report env args (found_in env args r')
               (snd (preamble env args (initial r')))
    | None => (Raise OSError, initial r)
    end.
Proof.
  unfold run, main.
  destruct (FS.open_w (perm env) (getcwd env) (now env) r (outputfile args))
    as [r'|] eqn:E.
  - rewrite (run_bind_ok _ _ _ tt (initial r')).
    2:{ unfold open_w, bind, get_root. cbn [root initial]. now rewrite E. }
    destruct (preamble_returns env args (initial r')) as (st1 & Hok & Hroot).
    rewrite (run_bind_ok _ _ _ _ _ Hok), Hok.
    unfold bind at 1, get_root. cbn [snd]. now rewrite Hroot.
  - unfold bind at 1, open_w, bind at 1, get_root. cbn [root initial].
    now rewrite E.
Qed.

Lemma inv_initial (okc : cell -> Prop) (oke : event -> Prop) (r : FS.t) :
  inv okc oke (initial r).
Proof. split; constructor. Qed.

(** A run keeps [inv] as soon as its report loop does. *)
Lemma run_inv (okc : cell -> Prop) (oke : FS.t -> event -> Prop)
      (env : Env) (args : Args) (r : FS.t) :
  okc Markup ->
  (forall r', oke r' EvImageFailure) ->
  (forall r',
      hoare (inv okc (oke r'))
            (report_rows env args (mkLocals "" None)
                         (rows_of args (found_in env args r')))
            (fun _ => True)) ->
  inv okc (oke (walked_tree env args r)) (snd (run env args r)).
Proof.
  intros Hm Hf Hrows. rewrite run_main. unfold walked_tree.
  destruct (FS.open_w (perm env) (getcwd env) (now env) r (outputfile args)) as [r'|];
    [|apply inv_initial].
  apply (hoare_report okc (oke r') env args _ Hm (Hrows r')).
  apply (hoare_preamble okc (oke r') env args Hm).
  apply (inv_initial okc (oke r') r').
Qed.

(* ------------------------------------------------------------------ *)
(** The artifact paths. *)

Lemma slice_remove_final_8 (s : string) :
  Py.slice 0 (-8) s = remove_final 8 s.
Proof.
  unfold remove_final. change (-8)%Z with (- Z.of_nat 8)%Z.
  now rewrite slice_drop_last by lia.
Qed.

(** The statements of the report loop that write cells, one at a
    time; [side] proves that the cell written is allowed. *)
Ltac hoare_cells side :=
  repeat lazymatch goal with
    | |- hoare _ (bind (fh_write _ _) _) _ =>
        apply hoare_seq; [apply hoare_fh_write; side|]
    | |- hoare _ (bind (write_img _ _ _ _) _) _ =>
        apply hoare_seq; [apply hoare_write_img; intros ?; side|]
    | |- hoare _ (bind (write_stamp _ _ _) _) _ =>
        apply hoare_seq; [apply hoare_write_stamp; side|]
    | |- hoare _ (bind (when _ (fh_write _ _)) _) _ =>
        apply hoare_seq;
        [apply hoare_when; intros ?; apply hoare_fh_write; side|]
    end.

Ltac hoare_writes side :=
  repeat first
    [ progress (hoare_cells side)
    | lazymatch goal with
      | |- hoare _ (bind (read_local _ _) _) _ =>
          apply (hoare_bind _ _ _ _ (fun _ => True));
          [apply hoare_read_local | intros ? _]
      | |- hoare _ (ret _) _ => apply hoare_ret; exact Logic.I
      end ].

(** The first statements of the loop body that compute a full path
    whose value does not matter. *)
Ltac hoare_full_path :=
  apply (hoare_bind _ _ _ _ (fun _ => True));
  [ lazymatch goal with
    | |- hoare _ (if ?b then _ else _) _ =>
        destruct b;
        [ apply (hoare_bind _ _ _ _ (fun _ => True));
          [apply hoare_os_path_join | intros ? _; apply hoare_ret; exact Logic.I]
        | apply hoare_ret; exact Logic.I ]
    end
  | intros ? _ ].

(** Lines 134 to 139. *)
Ltac hoare_group side :=
  apply (hoare_bind _ _ _ _ (fun _ => True));
  [ lazymatch goal with
    | |- hoare _ (if ?b then _ else _) _ =>
        destruct b; [hoare_writes side | apply hoare_ret; exact Logic.I]
    end
  | intros ? _ ].

Section DiffPaths.

Variable env : Env.
Variable args : Args.
Variable found : list (string * string).

Lemma report_row_events (lv : locals) (sf df df2 sp : string)
      (dp dp2 : option string) :
  In (sf, sp) found ->
  hoare (inv (fun _ => True) (diff_event_ok args found))
        (report_row env args lv (sf, df, df2, sp, dp, dp2))
        (fun _ => True).
Proof.
  intros Hin.
  assert (Hev : forall a b la lb,
             In (la, lb)
                [(sourcelang args, destlang args);
                 (sourcelang args, destlang2 args);
                 (destlang args, destlang2 args)] ->
             diff_event_ok args found
               (EvCreateDiff a b
                  (Py.slice 0 (-8) (PosixPath.join sp sf) ++ "_" ++ la
                     ++ "_vs_" ++ lb ++ "_diff.png"))).
  { intros a b la lb Hl. exists sf, sp, la, lb.
    split; [exact Hin | split; [exact Hl|]].
    unfold final_8_replaced. now rewrite slice_remove_final_8. }
  unfold report_row. cbv beta iota zeta.
  destruct (Py.truthy sf) eqn:Hsf.
  - apply (hoare_bind_pure _ _ _ (Some (PosixPath.join sp sf)));
      [intros st; reflexivity|].
    hoare_full_path. hoare_full_path.
    hoare_group ltac:(exact Logic.I).
    apply (hoare_bind _ _ _ _ (fun _ => True)).
    { destruct (true && Py.truthy df && DIFF_ENABLED env && CREATE_DIFF args);
        [|apply hoare_ret; exact Logic.I].
      apply (hoare_bind_pure _ _ _ (PosixPath.join sp sf));
        [intros st; reflexivity|]. cbv beta.
      apply hoare_seq; [|apply hoare_ret; exact Logic.I].
      apply hoare_call_createDiff; [exact Logic.I|].
      apply Hev. simpl. auto. }
    intros diffPath _.
    apply (hoare_bind _ _ _ _ (fun _ => True)).
    { destruct (useThirdLang args && true && Py.truthy df2
                && DIFF_ENABLED env && CREATE_DIFF args);
        [|apply hoare_ret; exact Logic.I].
      apply (hoare_bind_pure _ _ _ (PosixPath.join sp sf));
        [intros st; reflexivity|]. cbv beta.
      apply hoare_seq.
      { apply hoare_call_createDiff; [exact Logic.I|].
        apply Hev. simpl. auto. }
      apply (hoare_bind_pure _ _ _ (PosixPath.join sp sf));
        [intros st; reflexivity|]. cbv beta.
      apply hoare_seq; [|apply hoare_ret; exact Logic.I].
      apply hoare_call_createDiff; [exact Logic.I|].
      apply Hev. simpl. auto. }
    intros diffs _.
    hoare_writes ltac:(exact Logic.I).
  - apply (hoare_bind_pure _ _ _ None); [intros st; reflexivity|].
    hoare_full_path. hoare_full_path.
    hoare_group ltac:(exact Logic.I).
    apply (hoare_bind _ _ _ _ (fun _ => True)).
    { destruct (false && Py.truthy df && DIFF_ENABLED env && CREATE_DIFF args);
        [|apply hoare_ret; exact Logic.I].
      apply (hoare_bind_raises _ _ _ TypeError). intros st; reflexivity. }
    intros diffPath _.
    apply (hoare_bind _ _ _ _ (fun _ => True)).
    { destruct (useThirdLang args && false && Py.truthy df2
                && DIFF_ENABLED env && CREATE_DIFF args);
        [|apply hoare_ret; exact Logic.I].
      apply (hoare_bind_raises _ _ _ TypeError). intros st; reflexivity. }
    intros diffs _.
    hoare_writes ltac:(exact Logic.I).
Qed.

Lemma report_rows_events (fds : list (string * string)) :
  incl fds found ->
  forall lv,
    hoare (inv (fun _ => True) (diff_event_ok args found))
          (report_rows env args lv (List.map (row_of args) fds))
          (fun _ => True).
Proof.
  induction fds as [|[sf sp] fds IH]; intros Hincl lv; simpl.
  - apply hoare_ret. exact Logic.I.
  - apply (hoare_bind _ _ _ _ (fun _ => True)).
    + apply report_row_events. apply Hincl. now left.
    + intros lv' _. apply IH. intros x Hx. apply Hincl. now right.
Qed.

End DiffPaths.

(** Every call of [createDiff] a run makes writes to
    [<full source path without its last 8 characters>_<langA>_vs_<langB>_diff.png],
    for a source file the walk found and for [(langA, langB)] one of
    (source, destination 1), (source, destination 2),
    (destination 1, destination 2). *)
Lemma diff_calls_replace_final_8 (env : Env) (args : Args) (r : FS.t) :
  Forall (diff_event_ok args (found_in env args (walked_tree env args r)))
         (events (snd (run env args r))).
Proof.
  apply (run_inv (fun _ => True)
                 (fun r' => diff_event_ok args (found_in env args r'))
                 env args r).
  - exact Logic.I.
  - intros r'. exact Logic.I.
  - intros r'. rewrite rows_of_map. apply report_rows_events. apply incl_refl.
Qed.

(** The final 8 characters are the language and the extension exactly
    when the source language has four letters, as [glsl] has: then
    the two ways of naming a difference image agree. *)
Lemma remove_final_language_suffix (stem lang : string) :
  String.length lang = 4%nat ->
  remove_final 8 (stem ++ lang ++ ".png") = stem.
Proof.
  intros Hlen. unfold remove_final. rewrite !length_append, Hlen. simpl.
  replace (String.length stem + 8 - 8)%nat with (String.length stem) by lia.
  apply substring_0_append.
Qed.

Lemma four_letter_names_agree (args : Args) (full langA langB : string) :
  String.length (sourcelang args) = 4%nat ->
  diff_artifact_name args full langA langB = final_8_replaced full langA langB.
Proof.
  intros Hlen. unfold diff_artifact_name, source_base_without_suffix,
    final_8_replaced.
  now rewrite length_append, Hlen.
Qed.

(** The output paths of the recorded calls of [createDiff]. *)
Definition diff_outputs (evs : list event) : list string :=
  List.flat_map (fun e => match e with
                          | EvCreateDiff _ _ out => [out]
                          | EvImageFailure => []
                          end) evs.

(** [-sl osl -dl glsl -dl2 mdl -d]. *)
Definition args_osl_source : Args :=
  mkArgs "." "." "." "tests.html" true false 256 256 0 3 "osl" "glsl" "mdl".

(** [/work] holds one image rendered in three languages. *)
Definition tree_three : FS.t :=
  [("work", FS.Dir [("foo_osl.png", FS.File 1);
                    ("foo_glsl.png", FS.File 2);
                    ("foo_mdl.png", FS.File 3)])].

(** C8. With the three-letter source language [osl] the run saves its
    difference images under the full source path without its final 8
    characters, [./foo], followed by [_<langA>_vs_<langB>_diff.png]:
    lines 142, 148 and 150 cut 8 characters whatever the language,
    and take the separator of [foo_osl.png] away with them.  The names
    [<sourceBaseWithoutSuffix>_<langA>_vs_<langB>_diff.png], with the
    suffix [osl.png] removed as line 109 removes it, are others, and
    no file is saved under them. *)
Theorem diff_artifact_path_hard_codes_8 :
  sourceFiles (found_in sample_env args_osl_source tree_three) = ["foo_osl.png"]
  /\ fst (run sample_env args_osl_source tree_three) = Ok tt
  /\ diff_outputs (events (snd (run sample_env args_osl_source tree_three)))
     = ["./foo_osl_vs_glsl_diff.png";
        "./foo_osl_vs_mdl_diff.png";
        "./foo_glsl_vs_mdl_diff.png"]
  /\ List.map (fun ab => final_8_replaced "./foo_osl.png" (fst ab) (snd ab))
              [("osl", "glsl"); ("osl", "mdl"); ("glsl", "mdl")]
     = ["./foo_osl_vs_glsl_diff.png";
        "./foo_osl_vs_mdl_diff.png";
        "./foo_glsl_vs_mdl_diff.png"]
  /\ List.map (fun ab => diff_artifact_name args_osl_source "./foo_osl.png"
                                            (fst ab) (snd ab))
              [("osl", "glsl"); ("osl", "mdl"); ("glsl", "mdl")]
     = ["./foo__osl_vs_glsl_diff.png";
        "./foo__osl_vs_mdl_diff.png";
        "./foo__glsl_vs_mdl_diff.png"]
  /\ List.map (FS.isfile "/work"
                         (root (snd (run sample_env args_osl_source tree_three))))
              ["./foo_osl_vs_glsl_diff.png"; "./foo__osl_vs_glsl_diff.png"]
     = [true; false].
Proof. repeat split; vm_compute; reflexivity. Qed.

(* ------------------------------------------------------------------ *)
(** Runs without a second destination language. *)

Section NoThirdLanguage.

Variable env : Env.
Variable args : Args.
Hypothesis no_third : useThirdLang args = false.

Lemma report_row_no_third (lv : locals) (sf df sp : string)
      (dp dp2 : option string) :
  diffPath3 lv = None ->
  hoare (inv (fun c => third_language_cell c = false) (fun _ => True))
        (report_row env args lv (sf, df, "", sp, dp, dp2))
        (fun _ => False).
Proof.
  intros Hlv. unfold report_row.
  change (Py.truthy "") with false.
  rewrite no_third, Hlv. cbv beta iota zeta.
  hoare_full_path. hoare_full_path.
  apply (hoare_bind_pure _ _ _ None); [intros st; reflexivity|].
  hoare_group ltac:(reflexivity).
  apply (hoare_bind _ _ _ _ (fun _ => True)).
  { lazymatch goal with
    | |- hoare _ (if ?b then _ else _) _ =>
        destruct b; [|apply hoare_ret; exact Logic.I]
    end.
    apply (hoare_bind _ _ _ _ (fun _ => True)); [apply hoare_as_str|].
    intros fsp _. cbv beta.
    apply hoare_seq; [|apply hoare_ret; exact Logic.I].
    apply hoare_call_createDiff; exact Logic.I. }
  intros diffPath _.
  cbn [andb].
  apply (hoare_bind_pure _ _ _ (None, None)); [intros st; reflexivity|].
  cbn [fst snd].
  hoare_cells ltac:(first [reflexivity | simpl in *; congruence]).
  apply (hoare_bind_raises _ _ _ (UnboundLocalError "diffPath3")).
  intros st; reflexivity.
Qed.

Lemma dest2_no_third (f d : string) : dest2 args f d = ("", None).
Proof. unfold dest2. now rewrite no_third. Qed.

Lemma report_rows_no_third (fds : list (string * string)) (lv : locals) :
  diffPath3 lv = None ->
  hoare (inv (fun c => third_language_cell c = false) (fun _ => True))
        (report_rows env args lv (List.map (row_of args) fds))
        (fun _ => True).
Proof.
  intros Hlv. destruct fds as [|[f d] fds]; simpl.
  - apply hoare_ret. exact Logic.I.
  - apply (hoare_bind _ _ _ _ (fun _ => False)).
    + unfold row_of. cbn [fst snd]. rewrite dest2_no_third. cbn [fst snd].
      now apply report_row_no_third.
    + intros lv' [].
Qed.

End NoThirdLanguage.

(** C2. In a run without a second destination language nothing
    written to the report is a destination-2 image or caption cell, a
    source-vs-destination-2 difference cell, or a
    destination-1-vs-destination-2 difference cell. *)
Theorem no_third_language_no_third_cells (env : Env) (args : Args) (r : FS.t) :
  useThirdLang args = false ->
  Forall (fun cs => third_language_cell (fst cs) = false)
         (html (snd (run env args r))).
Proof.
  intros Hno.
  apply (run_inv (fun c => third_language_cell c = false)
                 (fun _ _ => True) env args r).
  - reflexivity.
  - intros r'. exact Logic.I.
  - intros r'. rewrite rows_of_map. now apply report_rows_no_third.
Qed.

Lemma no_third_language_no_third_cells_witness :
  useThirdLang default_args = false
  /\ List.length (html (snd (run sample_env default_args one_image_tree))) = 19
  /\ Forall (fun cs => third_language_cell (fst cs) = false)
            (html (snd (run sample_env default_args one_image_tree))).
Proof.
  split; [reflexivity | split; [vm_compute; reflexivity|]].
  apply (no_third_language_no_third_cells sample_env default_args one_image_tree).
  reflexivity.
Defined.

(* ------------------------------------------------------------------ *)
(** Runs that reach line 171 without having bound [diffPath3]. *)

Section UnboundDiffPath3.

Variable env : Env.
Variable args : Args.
Hypothesis no_third_diff :
  useThirdLang args && DIFF_ENABLED env && CREATE_DIFF args = false.

Lemma report_row_unbound (lv : locals) (sf df df2 sp : string)
      (dp dp2 : option string) :
  diffPath3 lv = None ->
  hoare (inv (fun _ => True) (fun _ => True))
        (report_row env args lv (sf, df, df2, sp, dp, dp2))
        (fun _ => False).
Proof.
  intros Hlv.
  assert (Hc : useThirdLang args && Py.truthy sf && Py.truthy df2
               && DIFF_ENABLED env && CREATE_DIFF args = false).
  { destruct (useThirdLang args), (DIFF_ENABLED env), (CREATE_DIFF args),
      (Py.truthy sf), (Py.truthy df2); simpl in *; congruence. }
  unfold report_row. cbv beta iota zeta. rewrite Hc, Hlv.
  hoare_full_path. hoare_full_path. hoare_full_path.
  hoare_group ltac:(exact Logic.I).
  apply (hoare_bind _ _ _ _ (fun _ => True)).
  { lazymatch goal with
    | |- hoare _ (if ?b then _ else _) _ =>
        destruct b; [|apply hoare_ret; exact Logic.I]
    end.
    apply (hoare_bind _ _ _ _ (fun _ => True)); [apply hoare_as_str|].
    intros fsp _. cbv beta.
    apply hoare_seq; [|apply hoare_ret; exact Logic.I].
    apply hoare_call_createDiff; exact Logic.I. }
  intros diffPath _.
  apply (hoare_bind_pure _ _ _ (None, None)); [intros st; reflexivity|].
  cbn [fst snd].
  hoare_cells ltac:(exact Logic.I).
  apply (hoare_bind_raises _ _ _ (UnboundLocalError "diffPath3")).
  intros st; reflexivity.
Qed.

Lemma report_unbound (found : list (string * string)) :
  found <> [] ->
  hoare (inv (fun _ => True) (fun _ => True))
        (report env args found) (fun _ => False).
Proof.
  destruct found as [|[f d] found]; [congruence|]. intros _.
  unfold report. rewrite rows_of_map. cbn [sourceFiles List.map when].
  apply (hoare_bind _ _ _ _ (fun _ => False)); [|intros ? []].
  apply (hoare_bind _ _ _ _ (fun _ => False)); [|intros ? []].
  cbn [report_rows].
  apply (hoare_bind _ _ _ _ (fun _ => False)); [|intros ? []].
  unfold row_of. now apply report_row_unbound.
Qed.

End UnboundDiffPath3.

(** Every run that opens its report, finds at least one source file,
    and does not have the second language, the image library and
    [--diff] all on, ends with an exception. *)
Lemma run_with_rows_never_returns
      (env : Env) (args : Args) (r r' : FS.t) :
  FS.open_w (perm env) (getcwd env) (now env) r (outputfile args) = Some r' ->
  found_in env args r' <> [] ->
  useThirdLang args && DIFF_ENABLED env && CREATE_DIFF args = false ->
  forall a, fst (run env args r) <> Ok a.
Proof.
  intros Hopen Hfound Hno a. rewrite run_main, Hopen.
  pose proof (report_unbound env args Hno _ Hfound) as H.
  destruct (H (snd (preamble env args (initial r')))) as [_ Hret].
  - apply (hoare_preamble (fun _ => True) (fun _ => True) env args Logic.I).
    apply inv_initial.
  - exact (Hret a).
Qed.

(** The calls a run with three languages and [--diff] records for one
    image. *)
Example three_language_diff_calls :
  diff_outputs (events (snd (run sample_env args_three_diff one_image_tree)))
  = ["./foo__glsl_vs_osl_diff.png";
     "./foo__glsl_vs_mdl_diff.png";
     "./foo__osl_vs_mdl_diff.png"].
Proof. vm_compute. reflexivity. Qed.

(** A call whose output path is a directory: [os.remove] raises in the
    body and again in the handler, nothing is printed and the
    exception leaves [createDiff]. *)
Example createDiff_output_directory_raises :
  createDiff sample_env (Some "a.png") (Some "b.png") "/work"
             (initial tree_ac)
  = (Raise OSError, initial tree_ac).
Proof. vm_compute. reflexivity. Qed.

(** A call of line 151 when destination 1 is absent: the first input
    is [None], [os.path.exists] raises [TypeError], and so does the
    message of the handler. *)
Example createDiff_none_input_raises :
  fst (createDiff sample_env None (Some "b.png") "d.png" (initial tree_ac))
  = Raise TypeError.
Proof. vm_compute. reflexivity. Qed.

(* ================================================================== *)
(** ** More on [createDiff]: what it changes and when it returns *)
(* ================================================================== *)

(** Two trees hold something at the same places, the output path
    apart. *)
Definition same_elsewhere (cwd out : string) (fs fs' : FS.t) : Prop :=
  forall q, FS.locate cwd fs q <> FS.locate cwd fs out ->
            FS.exists_ cwd fs' q = FS.exists_ cwd fs q.

Module FSFrame.

Import FS.

Lemma creat_elsewhere (p : loc) (m : Z) :
  forall n n' q,
    creat p m n = Some n' -> q <> p -> present q n' = present q n.
Proof.
  unfold present.
  induction p as [|c p IH]; intros n n' q H Hne; [destruct n; discriminate|].
  destruct n as [m0|es]; [discriminate|]. simpl in H.
  destruct q as [|d q].
  { destruct p as [|c' p'].
    - destruct (find_entry c es) as [[|]|]; inversion H; reflexivity.
    - destruct (find_entry c es) as [child|]; [|discriminate].
      destruct (creat (c' :: p') m child); inversion H; reflexivity. }
  destruct (string_dec c d) as [->|Hcd].
  - assert (Hq : q <> p) by congruence.
    destruct p as [|c' p'].
    + assert (E : n' = Dir (set_entry d (File m) es)
                  /\ (find_entry d es = None
                      \/ exists m1, find_entry d es = Some (File m1))).
      { destruct (find_entry d es) as [[m1|]|]; inversion H; eauto. }
      destruct E as [-> Hfind].
      simpl lookup at 1. rewrite FSFacts.find_set_same.
      rewrite FSFacts.lookup_below_file by exact Hq.
      simpl. destruct Hfind as [-> | [m1 ->]]; [reflexivity|].
      now rewrite FSFacts.lookup_below_file.
    + destruct (find_entry d es) as [child|] eqn:Hc; [|discriminate].
      destruct (creat (c' :: p') m child) as [child'|] eqn:Hu; [|discriminate].
      inversion H; subst.
      simpl lookup at 1. rewrite FSFacts.find_set_same.
      simpl lookup at 2. rewrite Hc.
      eapply IH; eassumption.
  - assert (E : exists x, n' = Dir (set_entry c x es)).
    { destruct p as [|c' p'].
      - destruct (find_entry c es) as [[|]|]; inversion H; eauto.
      - destruct (find_entry c es) as [child|]; [|discriminate].
        destruct (creat (c' :: p') m child); inversion H; eauto. }
    destruct E as [x ->]. simpl. now rewrite FSFacts.find_set_other.
Qed.

Lemma creat_after_unlink (p : loc) (m : Z) :
  forall n n', unlink p n = Some n' -> exists n'', creat p m n' = Some n''.
Proof.
  induction p as [|c p IH]; intros n n' H; [destruct n; discriminate|].
  destruct n as [m0|es]; [discriminate|]. simpl in H.
  destruct (find_entry c es) as [child|] eqn:Hc; [|discriminate].
  destruct p as [|c' p'].
  - destruct child; [|discriminate]. inversion H; subst.
    simpl. rewrite FSFacts.find_del_same. eauto.
  - destruct (unlink (c' :: p') child) as [child'|] eqn:Hu; [|discriminate].
    inversion H; subst.
    destruct (IH _ _ Hu) as [n'' Hn''].
    change (creat (c :: c' :: p') m (Dir (set_entry c child' es)))
      with (match find_entry c (set_entry c child' es) with
            | Some ch =>
                match creat (c' :: p') m ch with
                | Some ch' => Some (Dir (set_entry c ch' (set_entry c child' es)))
                | None => None
                end
            | None => None
            end).
    rewrite FSFacts.find_set_same, Hn''. eauto.
Qed.

Lemma creat_is_dir (p : loc) (m : Z) (es : entries_t) (n' : node) :
  creat p m (Dir es) = Some n' -> exists es', n' = Dir es'.
Proof.
  destruct p as [|c p]; [discriminate|]. simpl.
  destruct p.
  - destruct (find_entry c es) as [[|]|]; intros H; inversion H; eauto.
  - destruct (find_entry c es) as [child|]; [|discriminate].
    destruct (creat _ m child); intros H; inversion H; eauto.
Qed.

Lemma open_w_elsewhere (pm : perm) (cwd : string) (m : Z) (fs fs' : t)
      (path q : string) :
  open_w pm cwd m fs path = Some fs' ->
  locate cwd fs q <> locate cwd fs path ->
  exists_ cwd fs' q = exists_ cwd fs q.
Proof.
  intros H Hne. pose proof (FSFacts.open_w_same_dirs _ _ _ _ _ _ H) as Hd.
  destruct (FSFacts.open_w_inv _ _ _ _ _ _ H) as (p & Hp & _ & Hc).
  unfold exists_, stat. rewrite (FSFacts.locate_same_dirs _ _ _ _ Hd).
  destruct (locate cwd fs q) as [lq|]; [|reflexivity].
  assert (Hq : lq <> p) by congruence.
  exact (creat_elsewhere _ _ _ _ _ Hc Hq).
Qed.

(** Where a file has just been removed a new one can be made: the
    same permission allows both. *)
Lemma open_w_after_remove (pm : perm) (cwd : string) (m : Z) (fs fs' : t)
      (path : string) :
  remove pm cwd fs path = Some fs' ->
  exists fs'', open_w pm cwd m fs' path = Some fs''.
Proof.
  intros H. pose proof (FSFacts.remove_same_dirs _ _ _ _ _ H) as Hd.
  destruct (FSFacts.remove_inv _ _ _ _ _ H) as (p & Hp & Hw & Hu).
  unfold open_w. rewrite (FSFacts.locate_same_dirs _ _ _ _ Hd), Hp.
  rewrite (FSFacts.unlink_gone _ _ _ Hu), Hw.
  destruct (creat_after_unlink p m _ _ Hu) as [n'' Hn''].
  rewrite Hn''. destruct (creat_is_dir _ _ _ _ Hn'') as [es' ->]. eauto.
Qed.

End FSFrame.

Section CreateDiffMore.

Variable env : Env.

(** How lines 28 to 31 end, with the tree they leave. *)
Lemma pil_difference_outcomes (st : state) (p1 p2 out : string) :
  (exists fs2,
      FS.open_w (perm env) (getcwd env) (now env) (root st) out = Some fs2
      /\ pil env (root st) p1 p2 out = PilSaved
      /\ DIFF_ENABLED env = true
      /\ pil_difference env p1 p2 out st = (Ok tt, with_root fs2 st))
  \/ (exists e,
        pil_difference env p1 p2 out st
        = (Raise e, with_event EvImageFailure st))
  \/ (exists e fs2,
        FS.open_w (perm env) (getcwd env) (now env) (root st) out = Some fs2
        /\ pil_difference env p1 p2 out st
           = (Raise e, with_root fs2 (with_event EvImageFailure st))).
Proof.
  unfold pil_difference.
  destruct (DIFF_ENABLED env); cbn [negb];
    [|right; left; eexists; reflexivity].
  cbv beta iota delta [bind get_root].
  destruct (pil env (root st) p1 p2 out) as [ | | | partial].
  - destruct (FS.open_w (perm env) (getcwd env) (now env) (root st) out)
      as [fs2|].
    + left. exists fs2. repeat split; reflexivity.
    + right; left. eexists; reflexivity.
  - right; left. eexists; reflexivity.
  - right; left. eexists; reflexivity.
  - destruct partial.
    + cbn [log_event root].
      destruct (FS.open_w (perm env) (getcwd env) (now env) (root st) out)
        as [fs2|] eqn:E.
      * right; right. exists ImageError, fs2. split; reflexivity.
      * right; left. eexists; reflexivity.
    + right; left. eexists; reflexivity.
Qed.

(** The steps of a call change the tree at the output path only, and
    move no directory. *)
Definition framed (out : string) (fs fs' : FS.t) : Prop :=
  FSFacts.same_dirs fs fs' /\ same_elsewhere (getcwd env) out fs fs'.

Lemma framed_refl (out : string) (fs : FS.t) : framed out fs fs.
Proof.
  split; [apply FSFacts.same_dirs_refl | intros q _; reflexivity].
Qed.

Lemma framed_trans (out : string) (fs1 fs2 fs3 : FS.t) :
  framed out fs1 fs2 -> framed out fs2 fs3 -> framed out fs1 fs3.
Proof.
  intros [D12 E12] [D23 E23].
  split; [exact (FSFacts.same_dirs_trans _ _ _ D12 D23)|].
  intros q Hq. rewrite <- (E12 q Hq). apply E23.
  now rewrite !(FSFacts.locate_same_dirs _ _ _ _ D12).
Qed.

Lemma framed_cleared (out : string) (fs fs1 : FS.t) :
  cleared (perm env) (getcwd env) fs out = Some fs1 -> framed out fs fs1.
Proof.
  intros Hc. split; [exact (cleared_same_dirs env _ _ _ Hc)|].
  intros q Hq. exact (cleared_elsewhere env _ _ _ _ Hc Hq).
Qed.

Lemma framed_open_w (out : string) (fs fs2 : FS.t) :
  FS.open_w (perm env) (getcwd env) (now env) fs out = Some fs2 ->
  framed out fs fs2.
Proof.
  intros Ho. split; [exact (FSFacts.open_w_same_dirs _ _ _ _ _ _ Ho)|].
  intros q Hq. exact (FSFrame.open_w_elsewhere _ _ _ _ _ _ _ Ho Hq).
Qed.

Lemma run_exists_none {B : Type} (k : bool -> M B) (st : state) :
  bind (os_path_exists env None) k st = (Raise TypeError, st).
Proof. reflexivity. Qed.

(** All the ways a call with two path strings can end. *)
Lemma createDiff_outcomes (st : state) (p1 p2 out : string) :
  exists res fs' lines evs,
    createDiff env (Some p1) (Some p2) out st
    = (res, mkState fs' (html st) (List.app (stdout st) lines)
                    (List.app (events st) evs))
    /\ (List.length lines <= 1)%nat
    /\ framed out (root st) fs'
    /\ res = match cleared (perm env) (getcwd env) (root st) out with
             | Some _ => Ok tt
             | None => Raise OSError
             end.
Proof.
  unfold createDiff, try_except.
  rewrite run_clear.
  destruct (cleared (perm env) (getcwd env) (root st) out) as [fs1|] eqn:Hc.
  2:{ rewrite run_clear, Hc.
      exists (Raise OSError), (root st), [], [].
      split; [destruct st as [fs h so ev]; cbn [root html stdout events];
              now rewrite !app_nil_r|].
      split; [simpl; lia|]. split; [apply framed_refl | reflexivity]. }
  pose proof (cleared_gone env _ _ _ Hc) as Hgone.
  pose proof (framed_cleared _ _ _ Hc) as Hframe.
  rewrite run_exists. cbn [root with_root].
  destruct (FS.exists_ (getcwd env) fs1 p1); cbn [negb].
  2:{ exists (Ok tt), fs1, ["Image diff input missing: " ++ p1], [].
      split; [cbn; now rewrite app_nil_r|].
      split; [simpl; lia|]. split; [exact Hframe | reflexivity]. }
  rewrite run_exists. cbn [root with_root].
  destruct (FS.exists_ (getcwd env) fs1 p2); cbn [negb].
  2:{ exists (Ok tt), fs1, ["Image diff input missing: " ++ p2], [].
      split; [cbn; now rewrite app_nil_r|].
      split; [simpl; lia|]. split; [exact Hframe | reflexivity]. }
  cbn [as_str]. rewrite !run_ret.
  destruct (pil_difference_outcomes (with_root fs1 st) p1 p2 out)
    as [(fs2 & Hopen & _ & _ & H) | [[e H] | (e & fs2 & Hopen & H)]];
    rewrite H.
  - cbn [root with_root] in Hopen.
    exists (Ok tt), fs2, [], [].
    split; [cbn; now rewrite !app_nil_r|].
    split; [simpl; lia|]. split; [|reflexivity].
    eapply framed_trans; [exact Hframe|].
    now apply framed_open_w.
  - rewrite (run_handler env _ p1 p2 out fs1) by now apply cleared_absent.
    exists (Ok tt), fs1, [failure_line p1 p2], [EvImageFailure].
    split; [reflexivity|].
    split; [simpl; lia|]. split; [exact Hframe | reflexivity].
  - cbn [root with_root with_event] in Hopen.
    destruct (cleared_after_open_w env _ _ _ Hopen Hgone) as [fs3 Hc3].
    rewrite (run_handler env _ p1 p2 out fs3) by exact Hc3.
    exists (Ok tt), fs3, [failure_line p1 p2], [EvImageFailure].
    split; [reflexivity|].
    split; [simpl; lia|]. split; [|reflexivity].
    eapply framed_trans; [exact Hframe|].
    eapply framed_trans; [apply framed_open_w; exact Hopen|].
    now apply framed_cleared.
Qed.

(** X1. A call with two path strings returns normally exactly when
    the output path can be removed if something is there: a missing
    input and a failure of the image library are both absorbed, but
    an [os.remove] that raises at line 18 raises again at line 34 and
    leaves the call. *)
Theorem createDiff_returns_iff_output_removable
        (st : state) (p1 p2 out : string) :
  (output_removable env (root st) out ->
   fst (createDiff env (Some p1) (Some p2) out st) = Ok tt)
  /\ (~ output_removable env (root st) out ->
      createDiff env (Some p1) (Some p2) out st = (Raise OSError, st)).
Proof.
  split.
  - intros Hrm.
    destruct (proj1 (cleared_removable env _ _) Hrm) as [fs1 Hc].
    destruct (createDiff_outcomes st p1 p2 out)
      as (res & fs' & lines & evs & E & _ & _ & Hres).
    rewrite E, Hres, Hc. reflexivity.
  - intros Hno. unfold createDiff, try_except.
    rewrite run_clear.
    destruct (cleared (perm env) (getcwd env) (root st) out) as [fs1|] eqn:Hc.
    + exfalso. apply Hno. apply cleared_removable. eauto.
    + rewrite run_clear, Hc. reflexivity.
Qed.

(** X2. Whatever the inputs and however it ends, a call with two path
    strings writes nothing to the report, prints at most one line, and
    neither creates nor removes anything at a place other than the
    output path. *)
Theorem createDiff_touches_only_output
        (st : state) (p1 p2 out : string) :
  html (snd (createDiff env (Some p1) (Some p2) out st)) = html st
  /\ (exists lines,
        stdout (snd (createDiff env (Some p1) (Some p2) out st))
        = List.app (stdout st) lines
        /\ (List.length lines <= 1)%nat)
  /\ same_elsewhere (getcwd env) out (root st)
                    (root (snd (createDiff env (Some p1) (Some p2) out st))).
Proof.
  destruct (createDiff_outcomes st p1 p2 out)
    as (res & fs' & lines & evs & E & Hlen & [_ Hframe] & _).
  rewrite E. simpl. split; [reflexivity|]. split; [|exact Hframe].
  exists lines. split; [reflexivity | exact Hlen].
Qed.

(** X3. With both inputs present at places other than the output
    path, an output path that can be removed if something is there and
    opened for writing if nothing is, and an image library that
    succeeds, the call returns, prints nothing, records no failure,
    and leaves a regular file at the output path and both inputs in
    place. *)
Theorem createDiff_saves_difference
        (st : state) (p1 p2 out : string) :
  FS.exists_ (getcwd env) (root st) p1 = true ->
  FS.exists_ (getcwd env) (root st) p2 = true ->
  FS.locate (getcwd env) (root st) p1 <> FS.locate (getcwd env) (root st) out ->
  FS.locate (getcwd env) (root st) p2 <> FS.locate (getcwd env) (root st) out ->
  output_removable env (root st) out ->
  (FS.exists_ (getcwd env) (root st) out = false ->
   exists fs0,
     FS.open_w (perm env) (getcwd env) (now env) (root st) out = Some fs0) ->
  DIFF_ENABLED env = true ->
  (forall fs, pil env fs p1 p2 out = PilSaved) ->
  exists fs',
    createDiff env (Some p1) (Some p2) out st
    = (Ok tt, mkState fs' (html st) (stdout st) (events st))
    /\ FS.isfile (getcwd env) fs' out = true
    /\ FS.exists_ (getcwd env) fs' p1 = true
    /\ FS.exists_ (getcwd env) fs' p2 = true.
Proof.
  intros H1 H2 Ha1 Ha2 Hrm Hopen Hlib Hpil.
  destruct (proj1 (cleared_removable env _ _) Hrm) as [fs1 Hc].
  pose proof (cleared_same_dirs env _ _ _ Hc) as Hd.
  assert (Hopen1 : exists fs2,
             FS.open_w (perm env) (getcwd env) (now env) fs1 out = Some fs2).
  { unfold cleared in Hc.
    destruct (FS.exists_ (getcwd env) (root st) out).
    - exact (FSFrame.open_w_after_remove _ _ _ _ _ _ Hc).
    - inversion Hc; subst. now apply Hopen. }
  destruct Hopen1 as [fs2 Hopen1].
  exists fs2.
  assert (E1 : FS.exists_ (getcwd env) fs1 p1 = true)
    by now rewrite (cleared_elsewhere env _ _ _ _ Hc Ha1).
  assert (E2 : FS.exists_ (getcwd env) fs1 p2 = true)
    by now rewrite (cleared_elsewhere env _ _ _ _ Hc Ha2).
  split; [|split; [exact (FSFacts.open_w_isfile _ _ _ _ _ _ Hopen1)|split]].
  - unfold createDiff, try_except.
    rewrite run_clear, Hc, run_exists. cbn [root with_root].
    rewrite E1. cbn [negb]. rewrite run_exists. cbn [root with_root].
    rewrite E2. cbn [negb as_str]. rewrite !run_ret.
    unfold pil_difference. rewrite Hlib. cbn [negb].
    cbv beta iota delta [bind get_root]. cbn [root with_root].
    rewrite Hpil, Hopen1. reflexivity.
  - rewrite (FSFrame.open_w_elsewhere _ _ _ _ _ _ _ Hopen1); [exact E1|].
    now rewrite !(FSFacts.locate_same_dirs _ _ _ _ Hd).
  - rewrite (FSFrame.open_w_elsewhere _ _ _ _ _ _ _ Hopen1); [exact E2|].
    now rewrite !(FSFacts.locate_same_dirs _ _ _ _ Hd).
Qed.

(** X4. When the first input is missing the second is never looked
    at: if the output path can be removed, the call returns, prints
    one line naming the first input, whether or not the second exists,
    and nothing is left at the output path. *)
Theorem createDiff_first_input_missing
        (st : state) (p1 p2 out : string) :
  FS.exists_ (getcwd env) (root st) p1 = false ->
  output_removable env (root st) out ->
  exists fs',
    createDiff env (Some p1) (Some p2) out st
    = (Ok tt, mkState fs' (html st)
                (List.app (stdout st) ["Image diff input missing: " ++ p1])
                (events st))
    /\ FS.exists_ (getcwd env) fs' out = false.
Proof.
  intros H1 Hrm.
  destruct (proj1 (cleared_removable env _ _) Hrm) as [fs1 Hc].
  exists fs1. split; [|exact (cleared_gone env _ _ _ Hc)].
  unfold createDiff, try_except.
  rewrite run_clear, Hc, run_exists. cbn [root with_root].
  now rewrite (cleared_creates_nothing env _ _ _ _ Hc H1).
Qed.

(** X5. A call whose first input is [None] (line 151 makes one when
    destination 1 is absent) never returns and prints nothing: when
    line 18 does not raise, [os.path.exists(None)] raises [TypeError]
    at line 20 and so does the message of the handler at line 35;
    when line 18 raises, line 34 raises the same [OSError]. *)
Theorem createDiff_first_input_none_raises
        (st : state) (image2Path : option string) (out : string) :
  exists st',
    createDiff env None image2Path out st
    = (Raise (match cleared (perm env) (getcwd env) (root st) out with
              | Some _ => TypeError
              | None => OSError
              end), st')
    /\ stdout st' = stdout st.
Proof.
  unfold createDiff, try_except. rewrite run_clear.
  destruct (cleared (perm env) (getcwd env) (root st) out) as [fs1|] eqn:Hc.
  - assert (Hc1 : cleared (perm env) (getcwd env) (root (with_root fs1 st)) out
                  = Some fs1)
      by (apply cleared_absent; exact (cleared_gone env _ _ _ Hc)).
    rewrite run_exists_none, run_clear, Hc1.
    exists (with_root fs1 (with_root fs1 st)).
    split; reflexivity.
  - rewrite run_clear, Hc.
    exists st. split; reflexivity.
Qed.

End CreateDiffMore.

(** A process that may make or remove no entry. *)
Definition locked_env : Env :=
  mkEnv true "/work" (FS.mkPerm (fun _ => false) (fun _ => true)) 0
        (fun _ _ _ _ => PilSaved) (fun t => Some (Py.str_int t)).

(** A call whose output path holds a file that cannot be removed:
    [os.remove] raises in the body and again in the handler, nothing
    is printed, the file stays. *)
Example createDiff_output_undeletable_raises :
  createDiff locked_env (Some "a.png") (Some "b.png") "c.png"
             (initial tree_ac)
  = (Raise OSError, initial tree_ac).
Proof. vm_compute. reflexivity. Qed.

Lemma createDiff_returns_iff_output_removable_witness :
  fst (createDiff failing_env (Some "a.png") (Some "c.png") "d.png"
                  (initial tree_ac)) = Ok tt
  /\ createDiff locked_env (Some "a.png") (Some "b.png") "c.png"
                (initial tree_ac)
     = (Raise OSError, initial tree_ac).
Proof.
  split.
  - apply (proj1 (createDiff_returns_iff_output_removable
                    failing_env (initial tree_ac) "a.png" "c.png" "d.png")).
    intros H. vm_compute in H. discriminate H.
  - apply (proj2 (createDiff_returns_iff_output_removable
                    locked_env (initial tree_ac) "a.png" "b.png" "c.png")).
    intros H. destruct H as [fs1 H]; [reflexivity|].
    vm_compute in H. discriminate H.
Defined.

Lemma createDiff_saves_difference_witness :
  exists fs',
    createDiff sample_env (Some "a.png") (Some "c.png") "d.png"
               (initial tree_ac)
    = (Ok tt, mkState fs' [] [] [])
    /\ FS.isfile "/work" fs' "d.png" = true
    /\ FS.exists_ "/work" fs' "a.png" = true
    /\ FS.exists_ "/work" fs' "c.png" = true.
Proof.
  apply (createDiff_saves_difference
           sample_env (initial tree_ac) "a.png" "c.png" "d.png").
  - reflexivity.
  - reflexivity.
  - vm_compute. discriminate.
  - vm_compute. discriminate.
  - intros H. vm_compute in H. discriminate H.
  - intros _. eexists. vm_compute. reflexivity.
  - reflexivity.
  - intros fs. reflexivity.
Defined.

Lemma createDiff_first_input_missing_witness :
  exists fs',
    createDiff sample_env (Some "b.png") (Some "z.png") "c.png"
               (initial tree_ac)
    = (Ok tt, mkState fs' [] ["Image diff input missing: b.png"] [])
    /\ FS.exists_ "/work" fs' "c.png" = false.
Proof.
  apply (createDiff_first_input_missing
           sample_env (initial tree_ac) "b.png" "z.png" "c.png").
  - reflexivity.
  - intros _. eexists. vm_compute. reflexivity.
Defined.

(* ================================================================== *)
(** ** More on [main]: discovery, rows, and how a run can end *)
(* ================================================================== *)

(** X6. Lines 92 to 96 find a file exactly when some directory of the
    walk lists it among its files and its name ends with
    [<sourcelang>.png]; it is recorded with that directory. *)
Theorem discover_finds_exactly (args : Args)
        (walked : list (string * list string * list string))
        (f d : string) :
  In (f, d) (discover args walked)
  <-> exists ds files,
        In (d, ds, files) walked
        /\ In f files
        /\ Py.endswith f (sourcelang args ++ ".png") = true.
Proof.
  unfold discover. split.
  - intros H. apply in_flat_map in H.
    destruct H as [[[subdir ds] files] [Hw H]].
    apply in_map_iff in H. destruct H as [g [E H]].
    inversion E; subst. apply filter_In in H. destruct H as [Hg He].
    exists ds, files. auto.
  - intros (ds & files & Hw & Hf & He).
    apply in_flat_map. exists (d, ds, files). split; [exact Hw|].
    apply in_map_iff. exists f. split; [reflexivity|].
    apply filter_In. auto.
Qed.

(** X8. With a second destination language in use, every destination-2
    file name is the stem of its source file followed by
    [<destlang2>.png], and every destination-2 directory is the walk
    directory joined to the destination-1 root [inputdir2] (line 119):
    [inputdir3] plays no part. *)
Theorem dest2_resolution (env : Env) (args : Args) (r : FS.t) :
  useThirdLang args = true ->
  Forall2
    (fun sourceFile destFile2 =>
       exists stem,
         sourceFile = stem ++ sourcelang args ++ ".png"
         /\ destFile2 = stem ++ destlang2 args ++ ".png")
    (sourceFiles (found_in env args r))
    (destFiles2 args (found_in env args r))
  /\ destPaths2 args (found_in env args r)
     = List.map (fun sourcePath =>
                   Some (PosixPath.join (inputdir2' args) sourcePath))
                (sourcePaths (found_in env args r)).
Proof.
  intros Hthird. split.
  - unfold sourceFiles, destFiles2.
    apply Forall2_map_same. apply Forall_forall.
    intros [f d] Hin. simpl.
    apply discover_endswith in Hin.
    pose proof (endswith_inv _ _ Hin) as Hsplit.
    set (stem := String.substring
                   0 (String.length f - String.length (postFix args)) f)
      in Hsplit.
    exists stem. split; [exact Hsplit|].
    unfold dest2. rewrite Hthird. simpl. rewrite Hsplit.
    rewrite slice_strip_suffix by apply postFix_nonempty. reflexivity.
  - unfold destPaths2, sourcePaths. rewrite List.map_map.
    apply List.map_ext. intros [f d]. simpl.
    unfold dest2. now rewrite Hthird.
Qed.

Lemma dest2_resolution_witness :
  useThirdLang args_abs = true
  /\ destFiles2 args_abs (found_in sample_env args_abs tree_abs)
     = ["foo_mdl.png"; "bar_mdl.png"]
  /\ (Forall2
        (fun sourceFile destFile2 =>
           exists stem,
             sourceFile = stem ++ sourcelang args_abs ++ ".png"
             /\ destFile2 = stem ++ destlang2 args_abs ++ ".png")
        (sourceFiles (found_in sample_env args_abs tree_abs))
        (destFiles2 args_abs (found_in sample_env args_abs tree_abs))
      /\ destPaths2 args_abs (found_in sample_env args_abs tree_abs)
         = List.map (fun sourcePath =>
                       Some (PosixPath.join (inputdir2' args_abs) sourcePath))
                    (sourcePaths (found_in sample_env args_abs tree_abs))).
Proof.
  split; [reflexivity | split; [reflexivity|]].
  apply (dest2_resolution sample_env args_abs tree_abs). reflexivity.
Defined.

(** X9. When the report file cannot be opened (line 56) the run ends
    there with the error: nothing is written, printed or compared, and
    the tree is as it was. *)
Theorem run_open_failure (env : Env) (args : Args) (r : FS.t) :
  FS.open_w (perm env) (getcwd env) (now env) r (outputfile args) = None ->
  run env args r = (Raise OSError, initial r).
Proof. intros H. now rewrite run_main, H. Qed.

(** [-o nodir/tests.html], the rest by default. *)
Definition args_bad_output : Args :=
  mkArgs "." "." "." "nodir/tests.html" false false 256 256 0 3
         "glsl" "osl" "".

Lemma run_open_failure_witness :
  run sample_env args_bad_output one_image_tree
  = (Raise OSError, initial one_image_tree).
Proof.
  apply (run_open_failure sample_env args_bad_output one_image_tree).
  reflexivity.
Defined.

Lemma Forall_False_nil {A : Type} (l : list A) :
  Forall (fun _ => False) l -> l = [].
Proof. destruct l as [|x l]; [reflexivity|]. intros H. inversion H. contradiction. Qed.

(** The preamble records no event. *)
Lemma preamble_no_event (env : Env) (args : Args) (r : FS.t) :
  events (snd (preamble env args (initial r))) = [].
Proof.
  apply Forall_False_nil.
  apply (hoare_preamble (fun _ => True) (fun _ => False) env args Logic.I
                        (initial r)).
  apply inv_initial.
Qed.

(** X10. A run that opens its report and finds no source file returns
    normally; after the preamble it writes only the three closing tags
    of lines 199 to 201, calls [createDiff] never, prints nothing more,
    and leaves the tree as line 56 made it. *)
Theorem run_without_source_files (env : Env) (args : Args) (r r' : FS.t) :
  FS.open_w (perm env) (getcwd env) (now env) r (outputfile args) = Some r' ->
  found_in env args r' = [] ->
  fst (run env args r) = Ok tt
  /\ html (snd (run env args r))
     = List.app (html (snd (preamble env args (initial r'))))
                [(Markup, "</table>" ++ nl);
                 (Markup, "</body>" ++ nl);
                 (Markup, "</html>" ++ nl)]
  /\ stdout (snd (run env args r))
     = stdout (snd (preamble env args (initial r')))
  /\ events (snd (run env args r)) = []
  /\ root (snd (run env args r)) = r'.
Proof.
  intros Hopen Hfound. rewrite run_main, Hopen, Hfound.
  pose proof (preamble_no_event env args r') as Hev.
  destruct (preamble_returns env args (initial r')) as (st1 & Hok & Hroot).
  rewrite Hok in *. cbn [snd] in *. cbn [root initial] in Hroot.
  clear Hok. destruct st1 as [fs h so ev]. cbn [root events] in *. subst.
  unfold report. cbn [sourceFiles List.map when].
  split; [reflexivity|].
  split; [|repeat (split; [reflexivity|]); reflexivity].
  cbv beta iota delta [bind ret fh_write]. cbn [snd html].
  now rewrite <- !List.app_assoc.
Qed.

Lemma run_without_source_files_witness :
  fst (run sample_env default_args empty_tree) = Ok tt
  /\ html (snd (run sample_env default_args empty_tree))
     = List.app
         (html (snd (preamble sample_env default_args
                              (initial [("work",
                                         FS.Dir [("tests.html", FS.File 0)])]))))
         [(Markup, "</table>" ++ nl);
          (Markup, "</body>" ++ nl);
          (Markup, "</html>" ++ nl)]
  /\ stdout (snd (run sample_env default_args empty_tree))
     = stdout (snd (preamble sample_env default_args
                             (initial [("work",
                                        FS.Dir [("tests.html", FS.File 0)])])))
  /\ events (snd (run sample_env default_args empty_tree)) = []
  /\ root (snd (run sample_env default_args empty_tree))
     = [("work", FS.Dir [("tests.html", FS.File 0)])].
Proof.
  apply (run_without_source_files sample_env default_args empty_tree).
  - reflexivity.
  - reflexivity.
Defined.

(* ------------------------------------------------------------------ *)
(** Runs that make no difference image. *)

Section NoDiff.

Variable env : Env.
Variable args : Args.
Hypothesis no_diff : DIFF_ENABLED env && CREATE_DIFF args = false.

Lemma report_row_no_diff (lv : locals)
      (row : string * string * string * string
             * option string * option string) :
  hoare (inv (fun _ => True) (fun _ => False))
        (report_row env args lv row) (fun _ => True).
Proof.
  destruct row as [[[[[sf df] df2] sp] dp] dp2].
  assert (Hc1 : Py.truthy sf && Py.truthy df
                && DIFF_ENABLED env && CREATE_DIFF args = false).
  { destruct (DIFF_ENABLED env), (CREATE_DIFF args), (Py.truthy sf),
      (Py.truthy df); simpl in *; congruence. }
  assert (Hc2 : useThirdLang args && Py.truthy sf && Py.truthy df2
                && DIFF_ENABLED env && CREATE_DIFF args = false).
  { destruct (DIFF_ENABLED env), (CREATE_DIFF args), (useThirdLang args),
      (Py.truthy sf), (Py.truthy df2); simpl in *; congruence. }
  unfold report_row. cbv beta iota zeta. rewrite Hc1, Hc2.
  hoare_full_path. hoare_full_path. hoare_full_path.
  hoare_group ltac:(exact Logic.I).
  apply (hoare_bind_pure _ _ _ None); [intros st; reflexivity|].
  apply (hoare_bind_pure _ _ _ (None, diffPath3 lv));
    [intros st; reflexivity|].
  cbn [fst snd].
  hoare_writes ltac:(exact Logic.I).
Qed.

Lemma report_rows_no_diff
      (rows : list (string * string * string * string
                    * option string * option string)) :
  forall lv,
    hoare (inv (fun _ => True) (fun _ => False))
          (report_rows env args lv rows) (fun _ => True).
Proof.
  induction rows as [|row rows IH]; intros lv; simpl.
  - apply hoare_ret. exact Logic.I.
  - apply (hoare_bind _ _ _ _ (fun _ => True));
      [apply report_row_no_diff | intros lv' _; apply IH].
Qed.

End NoDiff.

(** X11. Without [--diff], or without the image library, a run never
    calls [createDiff], whatever it finds and however it ends. *)
Theorem no_diff_no_createDiff_call (env : Env) (args : Args) (r : FS.t) :
  DIFF_ENABLED env && CREATE_DIFF args = false ->
  events (snd (run env args r)) = [].
Proof.
  intros Hno. rewrite run_main.
  destruct (FS.open_w (perm env) (getcwd env) (now env) r (outputfile args)) as [r'|];
    [|reflexivity].
  apply Forall_False_nil.
  apply (hoare_report (fun _ => True) (fun _ => False) env args _ Logic.I
                      (report_rows_no_diff env args Hno _ _)).
  apply (hoare_preamble (fun _ => True) (fun _ => False) env args Logic.I).
  apply inv_initial.
Qed.

Lemma no_diff_no_createDiff_call_witness :
  DIFF_ENABLED sample_env && CREATE_DIFF default_args = false
  /\ events (snd (run sample_env default_args one_image_tree)) = [].
Proof.
  split; [reflexivity|].
  apply (no_diff_no_createDiff_call sample_env default_args one_image_tree).
  reflexivity.
Defined.

(* ------------------------------------------------------------------ *)
(** Runs that compare destination 2 with an absent destination 1. *)

Lemma truthy_append_r (a b : string) :
  Py.truthy b = true -> Py.truthy (a ++ b) = true.
Proof. destruct a; simpl; [trivial | reflexivity]. Qed.

Lemma hoare_createDiff_none (okc : cell -> Prop) (oke : event -> Prop)
      (env : Env) (b : option string) (out : string) :
  hoare (inv okc oke) (createDiff env None b out) (fun _ => False).
Proof.
  unfold createDiff. apply hoare_try.
  - apply (hoare_bind _ _ _ _ (fun _ => True)); [apply hoare_exists|].
    intros b0 _. apply hoare_seq;
      [apply hoare_when; intros _; apply hoare_remove|].
    apply (hoare_bind_raises _ _ _ TypeError). intros st; reflexivity.
  - apply (hoare_bind _ _ _ _ (fun _ => True)); [apply hoare_exists|].
    intros b0 _. apply hoare_seq;
      [apply hoare_when; intros _; apply hoare_remove|].
    apply (hoare_bind_raises _ _ _ TypeError). intros st; reflexivity.
Qed.

Section AbsentDest1.

Variable env : Env.
Variable args : Args.
Hypothesis third_diff :
  useThirdLang args && DIFF_ENABLED env && CREATE_DIFF args = true.
Hypothesis no_dest1 : dest1_guard args = false.

Lemma report_row_absent_dest1 (lv : locals) (f d : string) :
  Py.endswith f (postFix args) = true ->
  hoare (inv (fun _ => True) (fun _ => True))
        (report_row env args lv (row_of args (f, d)))
        (fun _ => False).
Proof.
  intros Hend.
  assert (Hthird : useThirdLang args = true
                   /\ DIFF_ENABLED env = true /\ CREATE_DIFF args = true).
  { destruct (useThirdLang args), (DIFF_ENABLED env), (CREATE_DIFF args);
      simpl in *; auto; discriminate. }
  destruct Hthird as (Hu & Hd & Hc).
  assert (Hf : Py.truthy f = true).
  { rewrite (endswith_inv _ _ Hend). apply truthy_append_r.
    unfold postFix. now apply truthy_append_r. }
  unfold row_of. cbn [fst snd]. unfold dest1, dest2.
  rewrite no_dest1, Hu. cbn [fst snd].
  set (df2 := Py.slice 0 (- Py.len (postFix args)) f
                ++ destlang2 args ++ ".png").
  assert (Hf2 : Py.truthy df2 = true).
  { unfold df2. apply truthy_append_r. now apply truthy_append_r. }
  unfold report_row. change (Py.truthy "") with false.
  rewrite Hf, Hf2, Hu, Hd, Hc. cbv beta iota zeta. cbn [andb].
  apply (hoare_bind_pure _ _ _ (Some (PosixPath.join d f)));
    [intros st; reflexivity|].
  apply (hoare_bind_pure _ _ _ None); [intros st; reflexivity|].
  apply (hoare_bind_pure
           _ _ _ (Some (PosixPath.join (PosixPath.join (inputdir2' args) d)
                                       df2)));
    [intros st; reflexivity|].
  hoare_group ltac:(exact Logic.I).
  apply (hoare_bind_pure _ _ _ None); [intros st; reflexivity|].
  apply (hoare_bind _ _ _ _ (fun _ => False)); [|intros ? []].
  apply (hoare_bind_pure _ _ _ (PosixPath.join d f));
    [intros st; reflexivity|]. cbv beta.
  apply hoare_seq; [apply hoare_call_createDiff; exact Logic.I|].
  apply (hoare_bind_pure _ _ _ (PosixPath.join d f));
    [intros st; reflexivity|]. cbv beta.
  apply (hoare_bind _ _ _ _ (fun _ => False)); [|intros ? []].
  unfold call_createDiff.
  apply hoare_seq; [apply hoare_log_event; exact Logic.I|].
  apply hoare_createDiff_none.
Qed.

Lemma report_absent_dest1 (found : list (string * string)) :
  found <> [] ->
  Forall (fun fd => Py.endswith (fst fd) (postFix args) = true) found ->
  hoare (inv (fun _ => True) (fun _ => True))
        (report env args found) (fun _ => False).
Proof.
  destruct found as [|[f d] found]; [congruence|]. intros _ Hall.
  inversion Hall as [|? ? Hf _]; subst. cbn [fst] in Hf.
  unfold report. rewrite rows_of_map. cbn [sourceFiles List.map when].
  apply (hoare_bind _ _ _ _ (fun _ => False)); [|intros ? []].
  apply (hoare_bind _ _ _ _ (fun _ => False)); [|intros ? []].
  cbn [report_rows].
  apply (hoare_bind _ _ _ _ (fun _ => False)); [|intros ? []].
  now apply report_row_absent_dest1.
Qed.

End AbsentDest1.

(** X12. A run that finds at least one source file can only return
    normally when the second destination language, the image library
    and [--diff] are all on and destination 1 is computed.  Otherwise
    it ends with an exception: line 171 reads the unbound [diffPath3],
    or line 151 passes [None] to [createDiff]. *)
Theorem run_with_rows_returns_only_if
        (env : Env) (args : Args) (r r' : FS.t) (a : unit) :
  FS.open_w (perm env) (getcwd env) (now env) r (outputfile args) = Some r' ->
  found_in env args r' <> [] ->
  fst (run env args r) = Ok a ->
  useThirdLang args && DIFF_ENABLED env && CREATE_DIFF args = true
  /\ dest1_guard args = true.
Proof.
  intros Hopen Hfound Hret.
  assert (Hpre : inv (fun _ => True) (fun _ => True)
                     (snd (preamble env args (initial r')))).
  { apply (hoare_preamble (fun _ => True) (fun _ => True) env args Logic.I).
    apply inv_initial. }
  rewrite run_main, Hopen in Hret.
  destruct (useThirdLang args && DIFF_ENABLED env && CREATE_DIFF args)
    eqn:Hall.
  - split; [reflexivity|].
    destruct (dest1_guard args) eqn:Hguard; [reflexivity|]. exfalso.
    assert (Hends : Forall (fun fd => Py.endswith (fst fd) (postFix args)
                                      = true)
                           (found_in env args r')).
    { apply Forall_forall. intros [f d] Hin. simpl.
      exact (discover_endswith _ _ _ _ Hin). }
    exact (proj2 (report_absent_dest1 env args Hall Hguard _ Hfound Hends
                                      _ Hpre) a Hret).
  - exfalso.
    exact (proj2 (report_unbound env args Hall _ Hfound _ Hpre) a Hret).
Qed.

Lemma run_with_rows_returns_only_if_witness :
  fst (run sample_env args_three_diff one_image_tree) = Ok tt
  /\ useThirdLang args_three_diff && DIFF_ENABLED sample_env
     && CREATE_DIFF args_three_diff = true
  /\ dest1_guard args_three_diff = true.
Proof.
  split; [vm_compute; reflexivity|].
  apply (run_with_rows_returns_only_if
           sample_env args_three_diff one_image_tree
           [("work", FS.Dir [("foo_glsl.png", FS.File 1);
                             ("tests.html", FS.File 0)])] tt).
  - reflexivity.
  - vm_compute. discriminate.
  - vm_compute. reflexivity.
Defined.

(* ------------------------------------------------------------------ *)
(** Timestamps. *)


(** [-d -dl2 mdl -t]: three languages, differences and timestamps. *)
Definition args_three_diff_stamps : Args :=
  mkArgs "." "." "." "tests.html" true true 256 256 0 3 "glsl" "osl" "mdl".

(** The same surroundings as [sample_env], with modification times
    that [fromtimestamp] refuses. *)
Definition refusing_env : Env :=
  mkEnv true "/work" FS.all_allowed 0 (fun _ _ _ _ => PilSaved)
        (fun _ => None).

(** Nothing catches the error of line 179: the run ends with it. *)
Example run_with_refused_time_raises :
  fst (run refusing_env args_three_diff_stamps one_image_tree)
  = Raise ValueError.
Proof. vm_compute. reflexivity. Qed.

(* ------------------------------------------------------------------ *)
(** Relative roots. *)

(** No entry name of a tree starts with a slash. *)
Fixpoint names_relative (n : FS.node) : bool :=
  match n with
  | FS.File _ => true
  | FS.Dir es =>
      List.forallb
        (fun e =>
           match e with
           | (name, child) =>
               negb (PosixPath.isabs name) && names_relative child
           end) es
  end.

Lemma startswith_refl (s : string) : Py.startswith s s = true.
Proof.
  unfold Py.startswith. induction s as [|c s IH]; [reflexivity|].
  cbn -[ascii_dec]. destruct (ascii_dec c c); [exact IH | congruence].
Qed.

Lemma startswith_append (a d x : string) :
  Py.startswith d a = true -> Py.startswith (d ++ x) a = true.
Proof.
  unfold Py.startswith. revert d.
  induction a as [|c a IH]; intros d H.
  - destruct (d ++ x); reflexivity.
  - destruct d as [|c' d]; [discriminate H|].
    cbn -[ascii_dec] in *.
    destruct (ascii_dec c c'); [now apply IH | discriminate H].
Qed.

Lemma join_relative_right (a b : string) :
  PosixPath.isabs b = false ->
  PosixPath.join a b = a ++ b \/ PosixPath.join a b = a ++ "/" ++ b.
Proof.
  unfold PosixPath.isabs, PosixPath.join, PosixPath.sep. intros ->.
  destruct (negb (Py.truthy a) || Py.endswith a "/"); auto.
Qed.

Lemma startswith_join (top d name : string) :
  Py.startswith d top = true ->
  PosixPath.isabs name = false ->
  Py.startswith (PosixPath.join d name) top = true.
Proof.
  intros Hd Hname.
  destruct (join_relative_right d name Hname) as [-> | ->];
    now apply startswith_append.
Qed.

Lemma walk_node_under_top (n : FS.node) :
  names_relative n = true ->
  forall top d,
    Py.startswith d top = true ->
    Forall (fun triple => Py.startswith (fst (fst triple)) top = true)
           (FS.walk_node d n).
Proof.
  induction n as [m | es IH] using node_induction; intros Hwf top d Hd; simpl.
  - constructor.
  - constructor; [exact Hd|].
    apply Forall_flat_map.
    simpl in Hwf. rewrite List.forallb_forall in Hwf.
    rewrite Forall_forall in IH |- *.
    intros [name child] Hin. specialize (IH _ Hin). simpl in IH.
    specialize (Hwf _ Hin). simpl in Hwf.
    apply andb_prop in Hwf. destruct Hwf as [Hname Hchild].
    destruct child as [m | es']; [constructor|].
    apply IH; [exact Hchild|].
    apply startswith_join; [exact Hd|].
    now destruct (PosixPath.isabs name).
Qed.

Lemma relative_under_relative (top d : string) :
  Py.startswith d top = true ->
  Py.truthy top = true ->
  PosixPath.isabs top = false ->
  PosixPath.isabs d = false.
Proof.
  unfold PosixPath.isabs, PosixPath.sep, Py.startswith.
  destruct top as [|c top]; [discriminate|]. intros Hd _ Htop.
  destruct d as [|c' d]; [reflexivity|].
  cbn -[ascii_dec] in *.
  destruct (ascii_dec c c') as [<-|]; [|discriminate Hd].
  destruct (ascii_dec "/"%char c); [|reflexivity].
  destruct top; discriminate Htop.
Qed.

(** X14. With a relative source root and ordinary entry names, every
    walk directory starts with the source root, and every destination-1
    directory that is computed is the destination-1 root followed by
    that whole walk directory, the source root included: with
    [inputdir2 = inputdir = A] an image of [A/sub] is looked up in
    [A/A/sub]. *)
Theorem relative_root_is_joined_again (env : Env) (args : Args) (r : FS.t) :
  PosixPath.isabs (inputdir args) = false ->
  (forall n, FS.stat (getcwd env) r (inputdir args) = Some n ->
             names_relative n = true) ->
  Forall2 (fun sourcePath destPath =>
             Py.startswith sourcePath (inputdir args) = true
             /\ forall d, destPath = Some d ->
                          d = inputdir2' args ++ sourcePath
                          \/ d = inputdir2' args ++ "/" ++ sourcePath)
          (sourcePaths (found_in env args r))
          (destPaths args (found_in env args r)).
Proof.
  intros Hrel Hwf. unfold sourcePaths, destPaths.
  apply Forall2_map_same. apply Forall_forall.
  intros [f d] Hin. simpl.
  unfold found_in in Hin.
  apply discover_dir_walked in Hin. destruct Hin as [ds [files Hin]].
  unfold FS.walk in Hin.
  destruct (FS.stat (getcwd env) r (inputdir args)) as [n|] eqn:Hstat;
    [|contradiction].
  pose proof (walk_node_under_top n (Hwf n eq_refl) (inputdir args)
                                  (inputdir args) (startswith_refl _)) as Hall.
  rewrite Forall_forall in Hall. specialize (Hall _ Hin). simpl in Hall.
  split; [exact Hall|].
  assert (Htruthy : Py.truthy (inputdir args) = true).
  { unfold FS.stat, FS.locate in Hstat.
    destruct (Py.truthy (inputdir args)); [reflexivity | discriminate]. }
  pose proof (relative_under_relative _ _ Hall Htruthy Hrel) as Hd.
  unfold dest1. destruct (dest1_guard args); simpl; intros d' E;
    [|discriminate].
  inversion E. now apply join_relative_right.
Qed.

Lemma relative_root_is_joined_again_witness :
  PosixPath.isabs (inputdir args_A) = false
  /\ sourcePaths (found_in sample_env args_A tree_A) = ["A"]
  /\ destPaths args_A (found_in sample_env args_A tree_A) = [Some "A/A"]
  /\ Forall2 (fun sourcePath destPath =>
                Py.startswith sourcePath (inputdir args_A) = true
                /\ forall d, destPath = Some d ->
                             d = inputdir2' args_A ++ sourcePath
                             \/ d = inputdir2' args_A ++ "/" ++ sourcePath)
             (sourcePaths (found_in sample_env args_A tree_A))
             (destPaths args_A (found_in sample_env args_A tree_A)).
Proof.
  split; [reflexivity | split; [reflexivity | split; [reflexivity|]]].
  apply (relative_root_is_joined_again sample_env args_A tree_A).
  - reflexivity.
  - intros n Hn. vm_compute in Hn. inversion Hn. reflexivity.
Defined.

(* ================================================================== *)
(** ** The source image cells of a run *)
(* ================================================================== *)

(** The source image cells of the report, in the order written. *)
Definition is_source_cell (cs : cell * string) : bool :=
  match fst cs with ImgSource => true | _ => false end.

Definition source_cells (st : state) : list string :=
  List.map snd (List.filter is_source_cell (html st)).

(** A computation that writes nothing to the report. *)
Definition quiet {A : Type} (m : M A) : Prop :=
  forall st, html (snd (m st)) = html st.

(** A computation adds to the source image cells a beginning of [l],
    and all of [l] when it returns. *)
Definition shows {A : Type} (m : M A) (l : list string) : Prop :=
  forall st, exists shown rest,
    l = List.app shown rest
    /\ source_cells (snd (m st)) = List.app (source_cells st) shown
    /\ (forall a, fst (m st) = Ok a -> rest = []).

Lemma quiet_bind {A B : Type} (m : M A) (k : A -> M B) :
  quiet m -> (forall a, quiet (k a)) -> quiet (bind m k).
Proof.
  intros Hm Hk st. unfold bind. specialize (Hm st).
  destruct (m st) as [[a|e] st1]; simpl in *; [|exact Hm].
  now rewrite Hk.
Qed.

Lemma quiet_try {A : Type} (body handler : M A) :
  quiet body -> quiet handler -> quiet (try_except body handler).
Proof.
  intros Hb Hh st. unfold try_except. specialize (Hb st).
  destruct (body st) as [[a|e] st1]; simpl in *; [exact Hb|].
  now rewrite Hh.
Qed.

Lemma quiet_when (b : bool) (m : M unit) : quiet m -> quiet (when b m).
Proof. intros Hm. destruct b; [exact Hm | intros st; reflexivity]. Qed.

Lemma quiet_as_str (v : option string) : quiet (as_str v).
Proof. intros st. destruct v; reflexivity. Qed.

Lemma quiet_concat_val (l : string) (v : option string) : quiet (concat_val l v).
Proof. intros st. destruct v; reflexivity. Qed.

Lemma quiet_exists (env : Env) (v : option string) : quiet (os_path_exists env v).
Proof. intros st. destruct v; reflexivity. Qed.

Lemma quiet_remove (env : Env) (v : option string) : quiet (os_remove env v).
Proof.
  intros st. destruct v as [p|]; [|reflexivity].
  unfold os_remove, bind, as_str, ret, get_root.
  destruct (FS.remove (perm env) (getcwd env) (root st) p); reflexivity.
Qed.

Lemma quiet_pil_difference (env : Env) (p1 p2 out : string) :
  quiet (pil_difference env p1 p2 out).
Proof.
  intros st.
  destruct (pil_difference_cases env st p1 p2 out)
    as [[fs2 H] | [[e H] | (e & fs2 & _ & H)]]; rewrite H; reflexivity.
Qed.

Lemma quiet_createDiff (env : Env) (a b : option string) (out : string) :
  quiet (createDiff env a b out).
Proof.
  unfold createDiff. apply quiet_try.
  - apply quiet_bind; [apply quiet_exists | intros b0].
    apply quiet_bind; [apply quiet_when, quiet_remove | intros _].
    apply quiet_bind; [apply quiet_exists | intros b1].
    destruct (negb b1).
    + apply quiet_bind; [apply quiet_concat_val | intros msg st; reflexivity].
    + apply quiet_bind; [apply quiet_exists | intros b2].
      destruct (negb b2).
      * apply quiet_bind; [apply quiet_concat_val | intros msg st; reflexivity].
      * apply quiet_bind; [apply quiet_as_str | intros p1].
        apply quiet_bind; [apply quiet_as_str | intros p2].
        apply quiet_pil_difference.
  - apply quiet_bind; [apply quiet_exists | intros b0].
    apply quiet_bind; [apply quiet_when, quiet_remove | intros _].
    apply quiet_bind; [apply quiet_concat_val | intros m1].
    apply quiet_bind; [apply quiet_concat_val | intros m2 st; reflexivity].
Qed.

Lemma quiet_call_createDiff (env : Env) (a b : option string) (out : string) :
  quiet (call_createDiff env a b out).
Proof.
  unfold call_createDiff.
  apply quiet_bind; [intros st; reflexivity | intros _; apply quiet_createDiff].
Qed.

Lemma shows_quiet {A : Type} (m : M A) : quiet m -> shows m [].
Proof.
  intros Hm st. exists [], []. split; [reflexivity|].
  split; [|intros; reflexivity].
  unfold source_cells. now rewrite Hm, app_nil_r.
Qed.

Lemma shows_bind {A B : Type} (m : M A) (k : A -> M B) (l1 l2 : list string) :
  shows m l1 -> (forall a, shows (k a) l2) -> shows (bind m k) (List.app l1 l2).
Proof.
  intros Hm Hk st. unfold bind.
  destruct (Hm st) as (s1 & r1 & E1 & C1 & R1).
  destruct (m st) as [[a|e] st1]; simpl in *.
  - pose proof (R1 a eq_refl) as ->. rewrite app_nil_r in E1. subst s1.
    destruct (Hk a st1) as (s2 & r2 & E2 & C2 & R2).
    exists (List.app l1 s2), r2. split; [now rewrite E2, app_assoc|].
    split; [now rewrite C2, C1, app_assoc | exact R2].
  - exists s1, (List.app r1 l2). split; [now rewrite E1, app_assoc|].
    split; [exact C1 | intros a E; discriminate E].
Qed.

Lemma shows_before {A B : Type} (m : M A) (k : A -> M B) (l : list string) :
  shows m [] -> (forall a, shows (k a) l) -> shows (bind m k) l.
Proof. intros Hm Hk. exact (shows_bind m k [] l Hm Hk). Qed.

Lemma shows_after {A B : Type} (m : M A) (k : A -> M B) (l : list string) :
  shows m l -> (forall a, shows (k a) []) -> shows (bind m k) l.
Proof.
  intros Hm Hk. rewrite <- (app_nil_r l). exact (shows_bind m k l [] Hm Hk).
Qed.

Lemma shows_fh_write_source (s : string) : shows (fh_write ImgSource s) [s].
Proof.
  intros st. exists [s], []. split; [reflexivity|].
  split; [|intros; reflexivity].
  unfold source_cells. simpl. now rewrite filter_app, map_app.
Qed.

Lemma shows_fh_write_other (c : cell) (s : string) :
  c <> ImgSource -> shows (fh_write c s) [].
Proof.
  intros Hc st. exists [], []. split; [reflexivity|].
  split; [|intros; reflexivity].
  unfold source_cells. simpl. rewrite filter_app, map_app, app_nil_r.
  destruct c; try congruence; simpl; now rewrite app_nil_r.
Qed.

Lemma shows_when (b : bool) (m : M unit) : shows m [] -> shows (when b m) [].
Proof.
  intros Hm. destruct b; [exact Hm|]. apply shows_quiet. intros st; reflexivity.
Qed.

Lemma shows_bind_pure {A B : Type} (m : M A) (a : A) (k : A -> M B)
      (l : list string) :
  (forall st, m st = (Ok a, st)) -> shows (k a) l -> shows (bind m k) l.
Proof. intros Hm Hk st. unfold bind. rewrite Hm. apply Hk. Qed.

Lemma quiet_ret {A : Type} (a : A) : quiet (ret a).
Proof. intros st; reflexivity. Qed.

Lemma quiet_os_path_join (a : option string) (b : string) :
  quiet (os_path_join a b).
Proof. intros st. destruct a; reflexivity. Qed.

Lemma quiet_read_local (name : string) (v : option (option string)) :
  quiet (read_local name v).
Proof. intros st. destruct v; reflexivity. Qed.

Lemma quiet_isfile (env : Env) (v : option string) : quiet (os_path_isfile env v).
Proof. intros st. destruct v; reflexivity. Qed.

Lemma quiet_getmtime (env : Env) (v : option string) :
  quiet (os_path_getmtime env v).
Proof.
  intros st. destruct v as [p|]; [|reflexivity].
  unfold os_path_getmtime, bind, as_str, ret, get_root.
  destruct (FS.getmtime (getcwd env) (root st) p); reflexivity.
Qed.

Lemma quiet_str_fromtimestamp (env : Env) (t : Z) :
  quiet (str_fromtimestamp env t).
Proof.
  intros st. unfold str_fromtimestamp. destruct (str_time env t); reflexivity.
Qed.

Lemma shows_write_img_other (args : Args) (c : cell) (uri : string)
      (v : option string) :
  c <> ImgSource -> shows (write_img args c uri v) [].
Proof.
  intros Hc. destruct v as [p|]; simpl.
  - apply shows_when. now apply shows_fh_write_other.
  - apply shows_quiet, quiet_ret.
Qed.

Lemma shows_write_stamp (env : Env) (args : Args) (v : option string) :
  shows (write_stamp env args v) [].
Proof.
  unfold write_stamp. apply shows_before.
  - apply shows_quiet.
    destruct (ENABLE_TIMESTAMPS args); [apply quiet_isfile | apply quiet_ret].
  - intros b. apply shows_when.
    apply shows_before; [apply shows_quiet, quiet_getmtime | intros t].
    apply shows_before; [apply shows_quiet, quiet_str_fromtimestamp | intros s].
    apply shows_fh_write_other. discriminate.
Qed.

(** Statements that show no source image cell, by their shape. *)
Ltac shows_nil :=
  cbv beta;
  lazymatch goal with
  | |- shows (bind _ _) [] =>
      apply shows_before; [shows_nil | intros ?; shows_nil]
  | |- shows (if ?b then _ else _) [] => destruct b; shows_nil
  | |- shows (when _ _) [] => apply shows_when; shows_nil
  | |- shows (ret _) [] => apply shows_quiet, quiet_ret
  | |- shows (fh_write _ _) [] => apply shows_fh_write_other; discriminate
  | |- shows (write_img _ _ _ _) [] => apply shows_write_img_other; discriminate
  | |- shows (write_stamp _ _ _) [] => apply shows_write_stamp
  | |- shows (call_createDiff _ _ _ _) [] =>
      apply shows_quiet, quiet_call_createDiff
  | |- shows (os_path_join _ _) [] => apply shows_quiet, quiet_os_path_join
  | |- shows (as_str _) [] => apply shows_quiet, quiet_as_str
  | |- shows (read_local _ _) [] => apply shows_quiet, quiet_read_local
  | |- shows (print _) [] => apply shows_quiet; intros ?; reflexivity
  end.

Lemma truthy_join (a b : string) :
  Py.truthy b = true -> Py.truthy (PosixPath.join a b) = true.
Proof.
  intros Hb. unfold PosixPath.join.
  destruct (Py.startswith b PosixPath.sep); [exact Hb|].
  destruct (negb (Py.truthy a) || Py.endswith a PosixPath.sep);
    repeat apply truthy_append_r; exact Hb.
Qed.

(** Lines 155 to 158. *)
Definition fileUri (args : Args) : string :=
  if PosixPath.isabs (outputfile args) then "file:///" else "".

(** The source image cell of a discovered entry (line 162). *)
Definition source_cell (args : Args) (fd : string * string) : string :=
  img_td args (fileUri args) (PosixPath.join (snd fd) (fst fd)).

Section SourceCells.

Variable env : Env.
Variable args : Args.

Lemma report_row_shows (lv : locals) (sf df df2 sp : string)
      (dp dp2 : option string) :
  Py.truthy sf = true ->
  shows (report_row env args lv (sf, df, df2, sp, dp, dp2))
        [source_cell args (sf, sp)].
Proof.
  intros Hsf. unfold report_row. rewrite Hsf. cbv beta iota zeta.
  apply (shows_bind_pure _ (Some (PosixPath.join sp sf)));
    [intros st; reflexivity|].
  apply shows_before; [shows_nil | intros fullDestPath].
  apply shows_before; [shows_nil | intros fullDestPath2].
  apply shows_before; [shows_nil | intros curPath'].
  apply shows_before; [shows_nil | intros diffPath].
  apply shows_before; [shows_nil | intros diffs].
  apply shows_before; [shows_nil | intros _].
  apply shows_after; [|intros _; shows_nil].
  unfold write_img, source_cell, fileUri. cbn [fst snd].
  rewrite (truthy_join sp sf Hsf). apply shows_fh_write_source.
Qed.

Lemma report_rows_shows (fds : list (string * string)) :
  Forall (fun fd => Py.truthy (fst fd) = true) fds ->
  forall lv,
    shows (report_rows env args lv (List.map (row_of args) fds))
          (List.map (source_cell args) fds).
Proof.
  induction fds as [|[sf sp] fds IH]; intros Hall lv; simpl.
  - apply shows_quiet, quiet_ret.
  - inversion Hall as [|? ? Hsf Hrest]; subst. cbn [fst] in Hsf.
    apply (shows_bind _ _ [source_cell args (sf, sp)]).
    + unfold row_of. cbn [fst snd]. now apply report_row_shows.
    + intros lv'. now apply IH.
Qed.

Lemma report_shows (found : list (string * string)) :
  Forall (fun fd => Py.truthy (fst fd) = true) found ->
  shows (report env args found) (List.map (source_cell args) found).
Proof.
  intros Hall. unfold report. rewrite rows_of_map.
  apply shows_after; [|intros _; shows_nil].
  destruct found as [|fd found]; cbn [sourceFiles List.map when].
  - apply shows_quiet, quiet_ret.
  - apply shows_after; [|intros _; shows_nil].
    exact (report_rows_shows (fd :: found) Hall _).
Qed.

Lemma preamble_shows : shows (preamble env args) [].
Proof. unfold preamble, write_head. shows_nil. Qed.

Lemma found_in_truthy (r : FS.t) :
  Forall (fun fd => Py.truthy (fst fd) = true) (found_in env args r).
Proof.
  apply Forall_forall. intros [f d] Hin. cbn [fst].
  rewrite (endswith_inv _ _ (discover_endswith _ _ _ _ Hin)).
  apply truthy_append_r. now apply truthy_append_r.
Qed.

End SourceCells.

(** X7. The source image cells of a run are those of the discovered
    files, one cell per file and in the order of discovery, each
    showing [os.path.join] of the walk directory and the file name,
    up to the row in which the run raises; a run that returns has
    written the cell of every discovered file. *)
Theorem source_cells_follow_discovery (env : Env) (args : Args) (r : FS.t) :
  exists shown rest,
    List.map (source_cell args) (found_in env args (walked_tree env args r))
    = List.app shown rest
    /\ source_cells (snd (run env args r)) = shown
    /\ (forall a, fst (run env args r) = Ok a -> rest = []).
Proof.
  rewrite run_main. unfold walked_tree.
  destruct (FS.open_w (perm env) (getcwd env) (now env) r (outputfile args))
    as [r'|].
  - destruct (report_shows env args _ (found_in_truthy env args r')
                           (snd (preamble env args (initial r'))))
      as (shown & rest & E & C & R).
    exists shown, rest. split; [exact E|]. split; [|exact R].
    rewrite C.
    destruct (preamble_shows env args (initial r')) as (s0 & r0 & E0 & C0 & _).
    destruct s0; [|discriminate E0]. rewrite C0. reflexivity.
  - exists [], (List.map (source_cell args) (found_in env args r)).
    split; [reflexivity|]. split; [reflexivity|].
    intros a E. discriminate E.
Qed.

Lemma source_cells_follow_discovery_witness :
  fst (run sample_env args_three_diff one_image_tree) = Ok tt
  /\ source_cells (snd (run sample_env args_three_diff one_image_tree))
     = [source_cell args_three_diff ("foo_glsl.png", ".")].
Proof.
  split; [vm_compute; reflexivity|].
  destruct (source_cells_follow_discovery
              sample_env args_three_diff one_image_tree)
    as (shown & rest & E & C & R).
  rewrite C. rewrite (R tt) in E by (vm_compute; reflexivity).
  rewrite app_nil_r in E. rewrite <- E. reflexivity.
Defined.

(** [/work] holds two rendered images. *)
Definition two_image_tree : FS.t :=
  [("work", FS.Dir [("foo_glsl.png", FS.File 1); ("bar_glsl.png", FS.File 2)])].

(** With the default arguments and two images the run raises in the
    first row (line 171): the walk found two files and one source
    image cell is written. *)
Example default_run_with_two_images_shows_one :
  sourceFiles (found_in sample_env default_args two_image_tree)
  = ["foo_glsl.png"; "bar_glsl.png"]
  /\ fst (run sample_env default_args two_image_tree)
     = Raise (UnboundLocalError "diffPath3")
  /\ source_cells (snd (run sample_env default_args two_image_tree))
     = [source_cell default_args ("foo_glsl.png", ".")].
Proof. repeat split; vm_compute; reflexivity. Qed.
